(** * Nexus Agent client: the conversation orchestration controller

    A shallow embedding of [src/types.ts] and of the controller logic of
    [src/App.tsx] ([addMessage], the [reader.onload] body of
    [handleFileUpload], [handleSend], the UI handlers that call it and the
    other state updates of [App]), followed by the properties of the
    specification and by further properties of the code, up to invariants of
    the event loop the handlers run in.

    JavaScript strings are modelled as [string]: a sequence of code units,
    each one an [ascii] standing for the code point U+0000..U+00FF (the
    Latin-1 range).  On that range [trim], [toLowerCase], [startsWith],
    [includes], [split] and the one regular expression the code uses are
    written out below. *)

From Stdlib Require Import String Ascii List ZArith Bool Lia Arith.
From Stdlib Require Import DecimalString.
From Stdlib Require DecimalPos DecimalZ.
Import ListNotations.
Local Open Scope string_scope.
Local Open Scope list_scope.

(** ** JavaScript string primitives *)

Module Js.

(** [WhiteSpace] and [LineTerminator] code points below U+0100, the
    characters [String.prototype.trim] strips:
    TAB, LF, VT, FF, CR, SPACE and NBSP. *)
Definition isWhiteSpace (c : ascii) : bool :=
  let n := nat_of_ascii c in
  (((9 <=? n) && (n <=? 13)) || (n =? 32) || (n =? 160))%nat.

(** The characters the regular-expression atom [.] refuses (no [s] flag). *)
Definition isLineTerminator (c : ascii) : bool :=
  let n := nat_of_ascii c in ((n =? 10) || (n =? 13))%nat.

Fixpoint trimStart (s : string) : string :=
  match s with
  | EmptyString => EmptyString
  | String c r => if isWhiteSpace c then trimStart r else s
  end.

Fixpoint trimEnd (s : string) : string :=
  match s with
  | EmptyString => EmptyString
  | String c r =>
      match trimEnd r with
      | EmptyString => if isWhiteSpace c then EmptyString else String c EmptyString
      | r' => String c r'
      end
  end.

Definition trim (s : string) : string := trimEnd (trimStart s).

(** Truthiness of a string value: only the empty string is falsy. *)
Definition truthy (s : string) : bool :=
  match s with EmptyString => false | _ => true end.

(** [s.startsWith(p)] *)
Fixpoint startsWith (s p : string) : bool :=
  match p, s with
  | EmptyString, _ => true
  | String _ _, EmptyString => false
  | String b p', String a s' => Ascii.eqb a b && startsWith s' p'
  end.

(** [s.includes(p)] *)
Fixpoint includes (s p : string) : bool :=
  startsWith s p ||
  match s with
  | EmptyString => false
  | String _ r => includes r p
  end.

(** [String.prototype.toLowerCase] on one code unit of the Latin-1 range:
    A-Z and the accented capitals U+00C0..U+00DE (the multiplication sign
    U+00D7 apart) move up by 32. *)
Definition toLowerCaseChar (c : ascii) : ascii :=
  let n := nat_of_ascii c in
  if (((65 <=? n) && (n <=? 90)) ||
      ((192 <=? n) && (n <=? 222) && negb (n =? 215)))%nat
  then ascii_of_nat (n + 32) else c.

Fixpoint toLowerCase (s : string) : string :=
  match s with
  | EmptyString => EmptyString
  | String c r => String (toLowerCaseChar c) (toLowerCase r)
  end.

(** [s.split(sep)] for a one-character separator: never empty. *)
Fixpoint split (sep : ascii) (s : string) : list string :=
  match s with
  | EmptyString => [EmptyString]
  | String c r =>
      if Ascii.eqb c sep then EmptyString :: split sep r
      else match split sep r with
           | [] => [String c EmptyString]
           | h :: t => String c h :: t
           end
  end.

(** The tail of the pattern [/:(.*?);/] once the colon is consumed: the
    lazy group takes characters one at a time, trying the semicolon first
    at each position, and gives up on a line terminator. *)
Fixpoint lazyUntilSemicolon (s : string) : option string :=
  match s with
  | EmptyString => None
  | String c r =>
      if Ascii.eqb c ";" then Some EmptyString
      else if isLineTerminator c then None
      else option_map (String c) (lazyUntilSemicolon r)
  end.

(** [s.match(/:(.*?);/)?.[1]]: the leftmost colon from which the pattern
    matches decides; [None] is [undefined]. *)
Fixpoint matchMimeGroup (s : string) : option string :=
  match s with
  | EmptyString => None
  | String c r =>
      if Ascii.eqb c ":" then
        match lazyUntilSemicolon r with
        | Some g => Some g
        | None => matchMimeGroup r
        end
      else matchMimeGroup r
  end.

(** [x || dflt] for an optional string [x]. *)
Definition orElse (x : option string) (dflt : string) : string :=
  match x with
  | Some v => if truthy v then v else dflt
  | None => dflt
  end.

(** [Number.prototype.toString] on an integer (decimal, a minus sign for
    negatives). *)
Definition numberToString (z : Z) : string :=
  NilZero.string_of_int (Z.to_int z).

End Js.

(** ** [src/types.ts] *)

Inductive AgentStatus : Type :=
| IDLE | THINKING | GENERATING | RECORDING | LIVE | ERROR.

Inductive MessageRole : Type := user | assistant | system.

Record GroundingSource : Type := mkGroundingSource {
  title : option string;
  uri : option string
}.

(** The string-literal union of [Attachment.type]. *)
Inductive AttachmentType : Type :=
| image | video | audio | text | pdf | document
| spreadsheet | presentation | code | note.

Record Attachment : Type := mkAttachment {
  type : AttachmentType;
  url : string;
  data : option string;
  mimeType : string
}.

Module Message.
Record t : Type := mk {
  id : string;
  role : MessageRole;
  content : string;
  timestamp : Z;
  attachments : option (list Attachment);
  groundingSources : option (list GroundingSource);
  isThinking : option bool
}.
End Message.
Abbreviation Message := Message.t.

(** [Partial<Message>]: every field optional. *)
Module PartialMessage.
Record t : Type := mk {
  id : option string;
  role : option MessageRole;
  content : option string;
  timestamp : option Z;
  attachments : option (list Attachment);
  groundingSources : option (list GroundingSource);
  isThinking : option bool
}.
Definition empty : t := mk None None None None None None None.
End PartialMessage.

(** ** [handleFileUpload]: the attachment ingestor *)

(** Lines 74-96 of [src/App.tsx]: the [if]/[else if] chain over [mimeType]. *)
Definition classify (mimeType : string) : AttachmentType :=
  if Js.startsWith mimeType "video" then video
  else if Js.startsWith mimeType "audio" then audio
  else if String.eqb mimeType "application/pdf" then pdf
  else if Js.includes mimeType "text" || Js.includes mimeType "json" ||
          Js.includes mimeType "javascript" || Js.includes mimeType "typescript"
  then code
  else if Js.includes mimeType "spreadsheet" || Js.includes mimeType "excel" ||
          Js.includes mimeType "csv"
  then spreadsheet
  else if Js.includes mimeType "presentation" || Js.includes mimeType "powerpoint"
  then presentation
  else if negb (Js.startsWith mimeType "image") then document
  else image.

(** [const [header, data] = base64.split(",")] *)
Definition splitDataURL (base64 : string) : string * option string :=
  match Js.split "," base64 with
  | [] => (EmptyString, None)
  | header :: rest => (header, nth_error rest 0)
  end.

(** [header.match(/:(.*?);/)?.[1] || "image/png"] *)
Definition mimeTypeOf (header : string) : string :=
  Js.orElse (Js.matchMimeGroup header) "image/png".

(** The record [reader.onload] appends to the pending attachments, from the
    data URL the reader produced and the handle [URL.createObjectURL(file)]
    returned. *)
Definition ingest (base64 objectURL : string) : Attachment :=
  let '(header, data) := splitDataURL base64 in
  let mimeType := mimeTypeOf header in
  {| type := classify mimeType;
     url := objectURL;
     data := data;
     mimeType := mimeType |}.

(** ** The generation gateway ([./services/geminiService]) *)

(** The value a rejected promise carries; the controller reads only its
    [message]. *)
Record JsError : Type := mkError { message : string }.

Record MediaResult : Type := mkMedia { media_url : string }.

Record ChatResult : Type := mkChat {
  chat_text : string;
  chat_sources : list GroundingSource
}.

Record ChatOptions : Type := mkOptions {
  useSearch : bool;
  useMaps : bool;
  opt_thinkingBudget : Z
}.

(** Modelled from the spec: the signatures of the three operations of
    [geminiService], whose module is not part of the sources at hand; each
    operation is indexed by the type of the value it resolves to. *)
Inductive gateway_op : Type -> Type :=
| generateImage (prompt : string) : gateway_op MediaResult
| generateVideo (prompt : string) : gateway_op MediaResult
| chat (prompt : string) (atts : list Attachment) (options : ChatOptions)
    : gateway_op ChatResult.

(** How an awaited promise settles. *)
Inductive outcome (T : Type) : Type :=
| Resolved (v : T)
| Rejected (e : JsError).
Arguments Resolved {T} v.
Arguments Rejected {T} e.

(** ** React state and its setters *)

Inductive Mode : Type := mode_chat | mode_image | mode_video | mode_live.

(** The [useState] cells of [App] that the controller reads or writes. *)
Record AppState : Type := mkState {
  messages : list Message;
  input : string;
  status : AgentStatus;
  attachments : list Attachment;
  activeMode : Mode;
  thinkingBudget : Z
}.

(** One call of a state setter (or of [console.error]). *)
Inductive effect : Type :=
| setInput (v : string)
| setAttachments (v : list Attachment)
| pushAttachment (a : Attachment)   (* setAttachments(prev => [...prev, a]) *)
| setStatus (v : AgentStatus)
| pushMessage (m : Message)         (* setMessages(prev => [...prev, m]) *)
| consoleError (e : JsError).

Definition apply_effect (e : effect) (s : AppState) : AppState :=
  match e with
  | setInput v =>
      mkState (messages s) v (status s) (attachments s) (activeMode s) (thinkingBudget s)
  | setAttachments v =>
      mkState (messages s) (input s) (status s) v (activeMode s) (thinkingBudget s)
  | pushAttachment a =>
      mkState (messages s) (input s) (status s) (attachments s ++ [a])
              (activeMode s) (thinkingBudget s)
  | setStatus v =>
      mkState (messages s) (input s) v (attachments s) (activeMode s) (thinkingBudget s)
  | pushMessage m =>
      mkState (messages s ++ [m]) (input s) (status s) (attachments s)
              (activeMode s) (thinkingBudget s)
  | consoleError _ => s
  end.

(** ** Handler bodies as programs

    A handler is a tree of setter calls, clock readings and awaited gateway
    calls that ends by returning or by throwing. *)
Inductive prog (R : Type) : Type :=
| Ret (r : R)
| Throw (e : JsError)
| Act (e : effect) (k : prog R)
| DateNow (k : Z -> prog R)
| Await {T : Type} (op : gateway_op T) (k : outcome T -> prog R).
Arguments Ret {R} r.
Arguments Throw {R} e.
Arguments Act {R} e k.
Arguments DateNow {R} k.
Arguments Await {R T} op k.

Fixpoint bind {A B : Type} (p : prog A) (f : A -> prog B) : prog B :=
  match p with
  | Ret r => f r
  | Throw e => Throw e
  | Act e k => Act e (bind k f)
  | DateNow k => DateNow (fun t => bind (k t) f)
  | Await op k => Await op (fun o => bind (k o) f)
  end.

Notation "x <- p ;; q" := (bind p (fun x => q))
  (at level 61, p at next level, right associativity).
Notation "p ;; q" := (bind p (fun _ => q))
  (at level 61, right associativity).

Definition act (e : effect) : prog unit := Act e (Ret tt).

(** [await op]: a rejection is thrown at the await. *)
Definition await {T : Type} (op : gateway_op T) : prog T :=
  Await op (fun o => match o with
                     | Resolved v => Ret v
                     | Rejected e => Throw e
                     end).

(** [try { p } catch (error) { h error }] *)
Fixpoint try_catch {A : Type} (p : prog A) (h : JsError -> prog A) : prog A :=
  match p with
  | Ret r => Ret r
  | Throw e => h e
  | Act e k => Act e (try_catch k h)
  | DateNow k => DateNow (fun t => try_catch (k t) h)
  | Await op k => Await op (fun o => try_catch (k o) h)
  end.

(** [try { p } finally { f }]: [f] runs on both exits and the exit of [p]
    stands, unless [f] itself throws. *)
Fixpoint finally {A : Type} (p : prog A) (f : prog unit) : prog A :=
  match p with
  | Ret r => f ;; Ret r
  | Throw e => f ;; Throw e
  | Act e k => Act e (finally k f)
  | DateNow k => DateNow (fun t => finally (k t) f)
  | Await op k => Await op (fun o => finally (k o) f)
  end.

(** ** [addMessage] *)

(** [{ id, role, content, timestamp, ...extra }]: the fields present in
    [extra] win. *)
Definition spread (m : Message) (extra : PartialMessage.t) : Message :=
  let pick {X} (o : option X) (d : X) := match o with Some v => v | None => d end in
  let over {X} (o d : option X) := match o with Some v => Some v | None => d end in
  Message.mk
    (pick (PartialMessage.id extra) (Message.id m))
    (pick (PartialMessage.role extra) (Message.role m))
    (pick (PartialMessage.content extra) (Message.content m))
    (pick (PartialMessage.timestamp extra) (Message.timestamp m))
    (over (PartialMessage.attachments extra) (Message.attachments m))
    (over (PartialMessage.groundingSources extra) (Message.groundingSources m))
    (over (PartialMessage.isThinking extra) (Message.isThinking m)).

Definition addMessage (role : MessageRole) (content : string)
    (extra : PartialMessage.t) : prog Message :=
  DateNow (fun t_id =>
  DateNow (fun t_stamp =>
    let newMessage :=
      spread (Message.mk (Js.numberToString t_id) role content t_stamp
                         None None None) extra in
    act (pushMessage newMessage) ;;
    Ret newMessage)).

Definition withAttachments (l : list Attachment) : PartialMessage.t :=
  PartialMessage.mk None None None None (Some l) None None.

Definition withGroundingSources (l : list GroundingSource) : PartialMessage.t :=
  PartialMessage.mk None None None None None (Some l) None.

(** ** [reader.onload] of [handleFileUpload] *)

Definition reader_onload (base64 objectURL : string) : prog unit :=
  act (pushAttachment (ingest base64 objectURL)).

(** ** [handleSend] *)

(** [!input.trim() && attachments.length === 0] *)
Definition nothingToSend (s : AppState) : bool :=
  negb (Js.truthy (Js.trim (input s))) && (length (attachments s) =? 0)%nat.

(** The options literal of the [geminiService.chat] call. *)
Definition chatOptions (currentInput : string) (budget : Z) : ChatOptions :=
  {| useSearch :=
       Js.includes (Js.toLowerCase currentInput) "search" ||
       Js.includes (Js.toLowerCase currentInput) "latest";
     useMaps :=
       Js.includes (Js.toLowerCase currentInput) "location" ||
       Js.includes (Js.toLowerCase currentInput) "near me";
     opt_thinkingBudget := budget |}.

Definition imageCaption : string := "Here's the image you requested based on: ".
Definition videoCaption : string := "I've generated this video for you.".
Definition errorPrefix : string := "Encountered an error: ".

(** The body of the [try] block. *)
Definition dispatch (mode : Mode) (budget : Z) (currentInput : string)
    (currentAttachments : list Attachment) : prog unit :=
  match mode with
  | mode_image =>
      act (setStatus GENERATING) ;;
      result <- await (generateImage currentInput) ;;
      _ <- addMessage assistant (imageCaption ++ currentInput)
             (withAttachments [mkAttachment image (media_url result) None "image/png"]) ;;
      Ret tt
  | mode_video =>
      act (setStatus GENERATING) ;;
      result <- await (generateVideo currentInput) ;;
      _ <- addMessage assistant videoCaption
             (withAttachments [mkAttachment video (media_url result) None "video/mp4"]) ;;
      Ret tt
  | _ =>
      result <- await (chat currentInput currentAttachments
                            (chatOptions currentInput budget)) ;;
      _ <- addMessage assistant (chat_text result)
             (withGroundingSources (chat_sources result)) ;;
      Ret tt
  end.

(** The body of the [catch] block. *)
Definition onError (error : JsError) : prog unit :=
  act (consoleError error) ;;
  _ <- addMessage assistant (errorPrefix ++ message error) PartialMessage.empty ;;
  act (setStatus ERROR).

(** [handleSend], closed over the state [s] of the render that created it. *)
Definition handleSend (s : AppState) : prog unit :=
  if nothingToSend s then Ret tt
  else
    let currentInput := input s in
    let currentAttachments := attachments s in
    act (setInput "") ;;
    act (setAttachments []) ;;
    act (setStatus THINKING) ;;
    _ <- addMessage user currentInput (withAttachments currentAttachments) ;;
    finally
      (try_catch
         (dispatch (activeMode s) (thinkingBudget s) currentInput currentAttachments)
         onError)
      (act (setStatus IDLE)).

(** ** The two UI paths into [handleSend] *)

Definition AgentStatus_eqb (a b : AgentStatus) : bool :=
  match a, b with
  | IDLE, IDLE | THINKING, THINKING | GENERATING, GENERATING
  | RECORDING, RECORDING | LIVE, LIVE | ERROR, ERROR => true
  | _, _ => false
  end.

(** The [disabled] attribute of the send button:
    [status !== AgentStatus.IDLE || (!input.trim() && attachments.length === 0)]. *)
Definition sendDisabled (s : AppState) : bool :=
  negb (AgentStatus_eqb (status s) IDLE) || nothingToSend s.

(** A click on the send button: a disabled button delivers no click. *)
Definition onSendClick (s : AppState) : prog unit :=
  if sendDisabled s then Ret tt else handleSend s.

(** [onKeyDown] of the textarea. *)
Definition onKeyDown (key : string) (shiftKey : bool) (s : AppState) : prog unit :=
  if String.eqb key "Enter" && negb shiftKey then handleSend s else Ret tt.

(** ** Running a handler

    What an observer sees of a run: the setter calls, and the gateway
    operations invoked, each with the way it settled. *)
Inductive event : Type :=
| Did (e : effect)
| Called {T : Type} (op : gateway_op T) (o : outcome T).

(** How the promise of an [async] handler settles. *)
Inductive settlement (R : Type) : Type :=
| Fulfilled (r : R)
| Failed (e : JsError).
Arguments Fulfilled {R} r.
Arguments Failed {R} e.

(** The configuration a run threads: the React state, the number of clock
    readings taken so far, and the events so far (oldest first). *)
Record Run : Type := mkRun {
  app : AppState;
  reads : nat;
  trace : list event
}.

Definition start (s : AppState) : Run := mkRun s 0 [].

(** The environment of a run in isolation: [clock n] is what the [n]-th call
    of [Date.now()] returns, [gateway] how each operation settles. *)
Record World : Type := mkWorld {
  clock : nat -> Z;
  gateway : forall T : Type, gateway_op T -> outcome T
}.

(** A whole handler call with nothing else scheduled in between. *)
Fixpoint run {R : Type} (w : World) (p : prog R) (c : Run) : settlement R * Run :=
  match p with
  | Ret r => (Fulfilled r, c)
  | Throw e => (Failed e, c)
  | Act e k =>
      run w k (mkRun (apply_effect e (app c)) (reads c) (trace c ++ [Did e]))
  | DateNow k =>
      run w (k (clock w (reads c))) (mkRun (app c) (S (reads c)) (trace c))
  | Await op k =>
      let o := gateway w _ op in
      run w (k o) (mkRun (app c) (reads c) (trace c ++ [Called op o]))
  end.

(** Where the synchronous part of a handler stops: it settled, or it is
    parked at an [await] with the rest of the handler as continuation. *)
Inductive pending (R : Type) : Type :=
| Settled (r : settlement R)
| Suspended {T : Type} (op : gateway_op T) (k : outcome T -> prog R).
Arguments Settled {R} r.
Arguments Suspended {R T} op k.

(** The handler up to its first [await]; the event loop is free to run other
    handlers before the continuation is resumed. *)
Fixpoint run_sync {R : Type} (clk : nat -> Z) (p : prog R) (c : Run)
  : pending R * Run :=
  match p with
  | Ret r => (Settled (Fulfilled r), c)
  | Throw e => (Settled (Failed e), c)
  | Act e k =>
      run_sync clk k (mkRun (apply_effect e (app c)) (reads c) (trace c ++ [Did e]))
  | DateNow k =>
      run_sync clk (k (clk (reads c))) (mkRun (app c) (S (reads c)) (trace c))
  | Await op k => (Suspended op k, c)
  end.

(** Delivering the settled promise to a parked continuation. *)
Definition resume {R T : Type} (clk : nat -> Z) (op : gateway_op T)
    (k : outcome T -> prog R) (o : outcome T) (c : Run) : pending R * Run :=
  run_sync clk (k o) (mkRun (app c) (reads c) (trace c ++ [Called op o])).

(** The gateway operations a trace records, in order. *)
Fixpoint calls (tr : list event) : list {T : Type & gateway_op T} :=
  match tr with
  | [] => []
  | Did _ :: r => calls r
  | Called op _ :: r => existT _ _ op :: calls r
  end.

(** The values [setStatus] was called with, in order. *)
Fixpoint status_writes (tr : list event) : list AgentStatus :=
  match tr with
  | [] => []
  | Did (setStatus v) :: r => v :: status_writes r
  | _ :: r => status_writes r
  end.

(** ** Sample environments *)

Definition sunsetURL : string := "https://media.example/sunset".

Definition gw_ok : forall T : Type, gateway_op T -> outcome T :=
  fun T op =>
    match op in gateway_op T0 return outcome T0 with
    | generateImage _ => Resolved (mkMedia sunsetURL)
    | generateVideo _ => Resolved (mkMedia sunsetURL)
    | chat _ _ _ => Resolved (mkChat "hello" [])
    end.

Definition gw_fail (msg : string) : forall T : Type, gateway_op T -> outcome T :=
  fun T _ => Rejected (mkError msg).

(** A clock that advances by one millisecond per reading, and one that
    stands still within the millisecond. *)
Definition ticking (t0 : Z) : nat -> Z := fun n => (t0 + Z.of_nat n)%Z.
Definition frozen (t0 : Z) : nat -> Z := fun _ => t0.

Definition idle_with (txt : string) (m : Mode) : AppState :=
  mkState [] txt IDLE [] m 500.


(** The conversation of the running example: the first question is in
    flight (its handler is parked at the gateway call) and the user has
    typed a second one. *)
Definition first_question : AppState := idle_with "first question" mode_chat.

Definition busy : AppState :=
  apply_effect (setInput "again")
    (app (snd (run_sync (ticking 1000) (handleSend first_question)
                        (start first_question)))).

(** A video request, run on its own against a gateway that succeeds. *)
Definition video_request : AppState := idle_with "generate a sunset" mode_video.

Definition video_run : settlement unit * Run :=
  run (mkWorld (ticking 1000) gw_ok) (handleSend video_request)
      (start video_request).

(** ** The specification's vocabulary *)

(** The MIME type opens with [p]. *)
Definition beginsWith (p m : string) : Prop :=
  exists rest : string, m = (p ++ rest)%string.

(** The word [w] occurs somewhere in the MIME type. *)
Definition contains (w m : string) : Prop :=
  exists pre post : string, m = (pre ++ w ++ post)%string.

Definition containsAnyOf (words : list string) (m : string) : Prop :=
  exists w : string, In w words /\ contains w m.

(** An ordered rule list read first-match-wins: the first rule whose
    condition holds gives the type, and [dflt] is given when none holds. *)
Definition rule : Type := (string -> Prop) * AttachmentType.

Fixpoint first_match (rs : list rule) (dflt : AttachmentType) (m : string)
    (t : AttachmentType) : Prop :=
  match rs with
  | [] => dflt = t
  | (holds, r) :: rest =>
      (holds m /\ r = t) \/ (~ holds m /\ first_match rest dflt m t)
  end.

(** The rules below the family tests, shared by both readings. *)
Definition word_rules : list rule :=
  [ (eq "application/pdf"%string, pdf);
    (containsAnyOf ["text"; "json"; "javascript"; "typescript"]%string, code);
    (containsAnyOf ["spreadsheet"; "excel"; "csv"]%string, spreadsheet);
    (containsAnyOf ["presentation"; "powerpoint"]%string, presentation) ].

(** The classification policy as the specification words it: the patterns
    video/*, audio/* and image/* ask for the family name and the slash. *)
Definition stated_rules : list rule :=
  [ (beginsWith "video/", video); (beginsWith "audio/", audio) ]
  ++ word_rules
  ++ [ (fun m => ~ beginsWith "image/" m, document) ].

Definition classified_as_stated (m : string) (t : AttachmentType) : Prop :=
  first_match stated_rules image m t.

(** The same policy with the family recognised by its name alone. *)
Definition family_name_rules : list rule :=
  [ (beginsWith "video", video); (beginsWith "audio", audio) ]
  ++ word_rules
  ++ [ (fun m => ~ beginsWith "image" m, document) ].

Definition classified (m : string) (t : AttachmentType) : Prop :=
  first_match family_name_rules image m t.

(** The letters: each capital paired with its small form. *)
Definition capitals : string := "ABCDEFGHIJKLMNOPQRSTUVWXYZ".
Definition smalls : string := "abcdefghijklmnopqrstuvwxyz".

Definition letters : list (ascii * ascii) :=
  combine (list_ascii_of_string capitals) (list_ascii_of_string smalls).

(** Two characters that are the same, or the same letter in the two
    cases. *)
Definition sameLetter (x y : ascii) : Prop :=
  x = y \/ In (x, y) letters \/ In (y, x) letters.

(** Two texts that differ in letter case only. *)
Inductive equalIgnoringCase : string -> string -> Prop :=
| eic_empty : equalIgnoringCase EmptyString EmptyString
| eic_char (x y : ascii) (u w : string) :
    sameLetter x y -> equalIgnoringCase u w ->
    equalIgnoringCase (String x u) (String y w).

(** [t] contains [w] case-insensitively: some stretch of [t] is [w] up to
    letter case. *)
Definition containsIgnoringCase (t w : string) : Prop :=
  exists pre u post : string,
    t = (pre ++ u ++ post)%string /\ equalIgnoringCase u w.

(** Deciding [sameLetter]. *)
Definition sameLetterb (x y : ascii) : bool :=
  Ascii.eqb x y
  || existsb (fun p => Ascii.eqb x (fst p) && Ascii.eqb y (snd p)) letters
  || existsb (fun p => Ascii.eqb y (fst p) && Ascii.eqb x (snd p)) letters.

(** The characters the four words of the chat heuristic are made of. *)
Definition heuristic_chars : list ascii :=
  list_ascii_of_string "search latest location near me".

Fixpoint made_of (allowed : list ascii) (w : string) : bool :=
  match w with
  | EmptyString => true
  | String c r => existsb (Ascii.eqb c) allowed && made_of allowed r
  end.

(** The messages a trace shows being appended, in order. *)
Fixpoint pushed (tr : list event) : list Message :=
  match tr with
  | [] => []
  | Did (pushMessage m) :: r => m :: pushed r
  | _ :: r => pushed r
  end.

(** Every character of the text is white space. *)
Fixpoint blank (s : string) : bool :=
  match s with
  | EmptyString => true
  | String c r => Js.isWhiteSpace c && blank r
  end.

(** No two entries of the transcript carry the same [id]. *)
Definition unique_ids (l : list Message) : Prop :=
  forall i j m n,
    i <> j -> nth_error l i = Some m -> nth_error l j = Some n ->
    Message.id m <> Message.id n.

(** ** The other state updates of [App] *)

(** The [useState] initialisers (lines 29-38). *)
Definition initialState : AppState := mkState [] "" IDLE [] mode_chat 500.

(** [prev.filter((_, idx) => idx !== i)], with [idx] the index of the head
    of [prev]. *)
Fixpoint filterOutIndex {A : Type} (i idx : nat) (prev : list A) : list A :=
  match prev with
  | [] => []
  | x :: r =>
      if negb (idx =? i)%nat then x :: filterOutIndex i (S idx) r
      else filterOutIndex i (S idx) r
  end.

(** The remove button of the [i]-th pending attachment (lines 291-295). *)
Definition removeAttachment (i : nat) (s : AppState) : AppState :=
  mkState (messages s) (input s) (status s)
          (filterOutIndex i 0 (attachments s))
          (activeMode s) (thinkingBudget s).

(** The "Reasoning Mode" button (lines 381-383):
    [setThinkingBudget((prev) => (prev === 0 ? 500 : 0))]. *)
Definition toggleReasoning (s : AppState) : AppState :=
  mkState (messages s) (input s) (status s) (attachments s) (activeMode s)
          (if (thinkingBudget s =? 0)%Z then 500%Z else 0%Z).

(** [setActiveMode], handed to the sidebar as [setMode]. *)
Definition setActiveMode (m : Mode) (s : AppState) : AppState :=
  mkState (messages s) (input s) (status s) (attachments s) m (thinkingBudget s).

(** [onChange] of the textarea: [setInput(e.target.value)]. *)
Definition onChange (value : string) : prog unit := act (setInput value).

(** The busy indicator is rendered when [status === AgentStatus.THINKING]
    (line 266). *)
Definition showsThinkingIndicator (s : AppState) : bool :=
  AgentStatus_eqb (status s) THINKING.

(** ** The event loop

    Handlers run one at a time, each to its next [await]; a handler parked
    at a gateway call waits in the list until its promise settles. *)
Record parked : Type := mkParked {
  p_T : Type;
  p_op : gateway_op p_T;
  p_k : outcome p_T -> prog unit
}.

Record Sys : Type := mkSys {
  cfg : Run;
  waiting : list parked
}.

Definition dropNth {A : Type} (i : nat) (l : list A) : list A :=
  firstn i l ++ skipn (S i) l.

(** Filing what a handler did: a handler that reached an [await] joins the
    waiting list. *)
Definition file_handler (r : pending unit * Run) (rest : list parked) : Sys :=
  match r with
  | (Settled _, c) => mkSys c rest
  | (Suspended op k, c) => mkSys c (rest ++ [mkParked _ op k])
  end.

(** An event handler called on the current render. *)
Definition handle (clk : nat -> Z) (h : AppState -> prog unit) (s : Sys) : Sys :=
  file_handler (run_sync clk (h (app (cfg s))) (cfg s)) (waiting s).

(** A state update made outside the recorded setters. *)
Definition update (f : AppState -> AppState) (s : Sys) : Sys :=
  mkSys (mkRun (f (app (cfg s))) (reads (cfg s)) (trace (cfg s))) (waiting s).

(** The promise of the [i]-th waiting handler settles with [o]. *)
Definition settle (clk : nat -> Z) (i : nat) (pk : parked)
    (o : outcome (p_T pk)) (s : Sys) : Sys :=
  file_handler (resume clk (p_op pk) (p_k pk) o (cfg s)) (dropNth i (waiting s)).

(** The kinds of event the loop is fed. *)
Inductive kind : Type :=
| by_typing | by_file | by_remove | by_toggle | by_mode
| by_click | by_key | by_settle.

Inductive step (clk : nat -> Z) : kind -> Sys -> Sys -> Prop :=
| step_typed (value : string) (s : Sys) :
    step clk by_typing s (handle clk (fun _ => onChange value) s)
| step_file_loaded (base64 objectURL : string) (s : Sys) :
    step clk by_file s (handle clk (fun _ => reader_onload base64 objectURL) s)
| step_remove (i : nat) (s : Sys) :
    step clk by_remove s (update (removeAttachment i) s)
| step_toggle (s : Sys) :
    step clk by_toggle s (update toggleReasoning s)
| step_mode (m : Mode) (s : Sys) :
    step clk by_mode s (update (setActiveMode m) s)
| step_click (s : Sys) :
    step clk by_click s (handle clk onSendClick s)
| step_key (key : string) (shiftKey : bool) (s : Sys) :
    step clk by_key s (handle clk (onKeyDown key shiftKey) s)
| step_settle (i : nat) (pk : parked) (o : outcome (p_T pk)) (s : Sys) :
    nth_error (waiting s) i = Some pk ->
    step clk by_settle s (settle clk i pk o s).

Definition boot : Sys := mkSys (start initialState) [].

Inductive reachable (clk : nat -> Z) : Sys -> Prop :=
| reach_boot : reachable clk boot
| reach_step (e : kind) (s s' : Sys) :
    reachable clk s -> step clk e s s' -> reachable clk s'.

(** The states reached when the textarea's key handler is never run: text
    is sent with the button only. *)
Inductive reachable_by_button (clk : nat -> Z) : Sys -> Prop :=
| button_boot : reachable_by_button clk boot
| button_step (e : kind) (s s' : Sys) :
    reachable_by_button clk s -> e <> by_key -> step clk e s s' ->
    reachable_by_button clk s'.

(** A short session: a question typed and sent with Enter, a second one
    typed and sent while the first is in flight, then the first answered. *)
Definition session1 : Sys :=
  handle (ticking 1000) (onKeyDown "Enter" false)
    (handle (ticking 1000) (fun _ => onChange "first question") boot).

Definition session2 : Sys :=
  handle (ticking 1000) (onKeyDown "Enter" false)
    (handle (ticking 1000) (fun _ => onChange "again") session1).

(** The same first question, sent with the button. *)
Definition button_session : Sys :=
  handle (ticking 1000) onSendClick
    (handle (ticking 1000) (fun _ => onChange "first question") boot).

(** ** Vocabulary of the further properties *)

(** The attachment's [type] is what the ingestor's rules give for its
    [mimeType]. *)
Definition att_ok (a : Attachment) : Prop := type a = classify (mimeType a).

Definition atts_ok (l : option (list Attachment)) : Prop :=
  match l with
  | Some l => Forall att_ok l
  | None => True
  end.

Definition MessageRole_eqb (a b : MessageRole) : bool :=
  match a, b with
  | user, user | assistant, assistant | system, system => true
  | _, _ => false
  end.

Definition count_role (r : MessageRole) (l : list Message) : nat :=
  length (filter (fun m => MessageRole_eqb (Message.role m) r) l).

(** A text none of whose characters is [bad]. *)
Fixpoint free_of (bad : ascii -> bool) (s : string) : bool :=
  match s with
  | EmptyString => true
  | String x r => negb (bad x) && free_of bad r
  end.

(** A text free of the given character. *)
Definition lacks (c : ascii) (s : string) : bool :=
  free_of (fun x => Ascii.eqb x c) s.

(** What a continuation parked by [handleSend] does when resumed, in
    whatever state the application is by then. *)
Definition answers_once (pk : parked) : Prop :=
  forall (clk : nat -> Z) (o : outcome (p_T pk)) (c : Run),
  exists (c' : Run) (a : Message),
    resume clk (p_op pk) (p_k pk) o c = (Settled (Fulfilled tt), c') /\
    messages (app c') = messages (app c) ++ [a] /\
    Message.role a = assistant /\
    atts_ok (Message.attachments a) /\
    status (app c') = IDLE /\
    input (app c') = input (app c) /\
    attachments (app c') = attachments (app c) /\
    activeMode (app c') = activeMode (app c) /\
    thinkingBudget (app c') = thinkingBudget (app c).

(** A message of the conversation proper: not a system message, and its
    attachments typed by the ingestor's rules. *)
Definition msg_ok (m : Message) : Prop :=
  Message.role m <> system /\ atts_ok (Message.attachments m).

(** What holds between any two events. *)
Definition Inv (s : Sys) : Prop :=
  let a := app (cfg s) in
  (status a = IDLE \/ status a = THINKING \/ status a = GENERATING) /\
  (waiting s = [] -> status a = IDLE) /\
  Forall answers_once (waiting s) /\
  (thinkingBudget a = 0%Z \/ thinkingBudget a = 500%Z) /\
  Forall att_ok (attachments a) /\
  Forall msg_ok (messages a) /\
  count_role user (messages a)
  = (count_role assistant (messages a) + length (waiting s))%nat.

(** The status a submission in mode [m] waits in. *)
Definition waitingStatus (m : Mode) : AgentStatus :=
  match m with
  | mode_image | mode_video => GENERATING
  | _ => THINKING
  end.

(** ** Sanity checks of the embedding *)

Example ingest_mp4 :
  ingest "data:video/mp4;base64,AAAA" "blob:1"
  = mkAttachment video "blob:1" (Some "AAAA") "video/mp4".
Proof. reflexivity. Qed.

Example ingest_no_header :
  ingest "garbage" "blob:2" = mkAttachment image "blob:2" None "image/png".
Proof. reflexivity. Qed.

Example ingest_powerpoint :
  type (ingest "data:application/vnd.ms-powerpoint;base64,0M8R" "blob:3")
  = presentation.
Proof. reflexivity. Qed.

Example ingest_octet_stream :
  type (ingest "data:application/octet-stream;base64,AA==" "blob:4") = document.
Proof. reflexivity. Qed.

Example trim_examples :
  Js.trim "  a b  " = "a b" /\ Js.trim "   " = "" /\ Js.trim "" = "".
Proof. repeat split. Qed.

Example lower_example : Js.toLowerCase "Latest NEWS on AI" = "latest news on ai".
Proof. reflexivity. Qed.

Example latest_news_options :
  chatOptions "latest news on AI" 500 = mkOptions true false 500 /\
  chatOptions "Coffee NEAR ME" 0 = mkOptions false true 0.
Proof. split; reflexivity. Qed.

Example sunset_run :
  let s := idle_with "generate a sunset" mode_image in
  let '(r, c) := run (mkWorld (ticking 1000) gw_ok) (handleSend s) (start s) in
  r = Fulfilled tt /\
  map Message.role (messages (app c)) = [user; assistant] /\
  map Message.content (messages (app c))
  = ["generate a sunset";
     "Here's the image you requested based on: generate a sunset"] /\
  status_writes (trace c) = [THINKING; GENERATING; IDLE].
Proof. cbv. repeat split. Qed.

Example timeout_run :
  let s := idle_with "latest news on AI" mode_chat in
  let '(r, c) := run (mkWorld (ticking 1000) (gw_fail "network timeout"))
                     (handleSend s) (start s) in
  r = Fulfilled tt /\
  map Message.content (messages (app c))
  = ["latest news on AI"; "Encountered an error: network timeout"] /\
  status_writes (trace c) = [THINKING; ERROR; IDLE] /\
  status (app c) = IDLE.
Proof. cbv. repeat split. Qed.

(** ** Facts about the string primitives *)

Section StringFacts.

Local Open Scope string_scope.

Lemma startsWith_app (p r : string) : Js.startsWith (p ++ r) p = true.
Proof.
  induction p as [|x p IH]; simpl; [now destruct r|].
  now rewrite Ascii.eqb_refl, IH.
Qed.

Lemma startsWith_inv (s p : string) :
  Js.startsWith s p = true -> exists r, s = p ++ r.
Proof.
  revert s; induction p as [|x p IH]; intros s H.
  - now exists s.
  - destruct s as [|y s]; simpl in H; [discriminate|].
    apply andb_true_iff in H as [Hxy Hp].
    apply Ascii.eqb_eq in Hxy; subst y.
    destruct (IH _ Hp) as [r ->]. now exists r.
Qed.

Lemma includes_here (s p : string) :
  Js.startsWith s p = true -> Js.includes s p = true.
Proof. intros H. destruct s; simpl in *; now rewrite H. Qed.

Lemma includes_app (a p b : string) : Js.includes (a ++ p ++ b) p = true.
Proof.
  induction a as [|x a IH].
  - change ("" ++ p ++ b) with (p ++ b).
    apply includes_here. apply (startsWith_app p b).
  - change ((String x a ++ p ++ b)) with (String x (a ++ p ++ b)).
    cbn [Js.includes]. rewrite IH. apply orb_true_r.
Qed.

Lemma startsWith_refl (p : string) : Js.startsWith p p = true.
Proof.
  induction p as [|y p IH]; simpl; [reflexivity|].
  now rewrite Ascii.eqb_refl, IH.
Qed.

Lemma includes_suffix (a p : string) : Js.includes (a ++ p) p = true.
Proof.
  induction a as [|x a IH].
  - change ("" ++ p) with p. apply includes_here, startsWith_refl.
  - change (String x a ++ p) with (String x (a ++ p)).
    cbn [Js.includes]. rewrite IH. apply orb_true_r.
Qed.

Lemma includes_inv (s p : string) :
  Js.includes s p = true -> exists a b, s = a ++ p ++ b.
Proof.
  induction s as [|x s IH]; intros H.
  - cbn [Js.includes] in H. rewrite orb_false_r in H.
    destruct (startsWith_inv _ _ H) as [r Hr]. now exists "", r.
  - cbn [Js.includes] in H. apply orb_true_iff in H as [H|H].
    + destruct (startsWith_inv _ _ H) as [r Hr]. now exists "", r.
    + destruct (IH H) as (a & b & ->). now exists (String x a), b.
Qed.

Lemma toLowerCase_app (a b : string) :
  Js.toLowerCase (a ++ b) = Js.toLowerCase a ++ Js.toLowerCase b.
Proof. induction a as [|x a IH]; simpl; [reflexivity | now rewrite IH]. Qed.

(** A split of the lowered text is the image of a split of the text. *)
Lemma toLowerCase_split (t a b : string) :
  Js.toLowerCase t = a ++ b ->
  exists ta tb, t = ta ++ tb /\ Js.toLowerCase ta = a /\ Js.toLowerCase tb = b.
Proof.
  revert t; induction a as [|x a IH]; intros t H.
  - now exists "", t.
  - destruct t as [|y t]; simpl in H; [discriminate|].
    injection H as Hx Ht. destruct (IH _ Ht) as (ta & tb & -> & Ha & Hb).
    exists (String y ta), tb. simpl. now rewrite Hx, Ha.
Qed.

Lemma sameLetterb_spec (x y : ascii) :
  sameLetterb x y = true <-> sameLetter x y.
Proof.
  assert (Pair : forall a b : ascii,
             existsb (fun p => Ascii.eqb a (fst p) && Ascii.eqb b (snd p)) letters
             = true <-> In (a, b) letters).
  { intros a b. rewrite existsb_exists. split.
    - intros ([u l] & Hin & H). apply andb_true_iff in H as [Ha Hb].
      apply Ascii.eqb_eq in Ha, Hb. cbn in Ha, Hb. now subst.
    - intros Hin. exists (a, b). split; [exact Hin|].
      cbn. now rewrite !Ascii.eqb_refl. }
  unfold sameLetterb, sameLetter.
  rewrite !orb_true_iff, Ascii.eqb_eq, !Pair. tauto.
Qed.

(** On the characters of the four words, lowering a character and
    comparing is comparing up to letter case. *)
Lemma lowered_char_matches (c x : ascii) :
  existsb (Ascii.eqb c) heuristic_chars = true ->
  Ascii.eqb (Js.toLowerCaseChar x) c = sameLetterb x c.
Proof.
  intros H. apply existsb_exists in H as (c' & Hin & E).
  apply Ascii.eqb_eq in E. subst c'.
  cbv [heuristic_chars list_ascii_of_string In] in Hin.
  repeat (destruct Hin as [<- | Hin];
          [destruct x as [[|] [|] [|] [|] [|] [|] [|] [|]]; vm_compute; reflexivity|]).
  destruct Hin.
Qed.

Lemma toLowerCase_equalIgnoringCase (u w : string) :
  made_of heuristic_chars w = true ->
  Js.toLowerCase u = w <-> equalIgnoringCase u w.
Proof.
  revert u. induction w as [|c w IH]; intros u Hm.
  - split.
    + destruct u; [constructor | discriminate].
    + intros H. inversion H. reflexivity.
  - cbn [made_of] in Hm. apply andb_true_iff in Hm as [Hc Hw]. split.
    + destruct u as [|x u]; [discriminate|]. cbn. intros [= Hx Hu].
      constructor.
      * apply sameLetterb_spec. rewrite <- (lowered_char_matches c x Hc).
        now apply Ascii.eqb_eq.
      * now apply IH.
    + intros H. inversion H as [|x y u' w' Hx Hu]; subst. cbn. f_equal.
      * apply Ascii.eqb_eq. rewrite (lowered_char_matches c x Hc).
        now apply sameLetterb_spec.
      * now apply IH.
Qed.

(** Searching the lowered text for one of the heuristic's words is
    searching the text for the word up to letter case. *)
Lemma includes_lowered (t w : string) :
  made_of heuristic_chars w = true ->
  Js.includes (Js.toLowerCase t) w = true <-> containsIgnoringCase t w.
Proof.
  intros Hw; split.
  - intros H. destruct (includes_inv _ _ H) as (a & b & Hab).
    destruct (toLowerCase_split _ _ _ Hab) as (ta & tr & -> & Ha & Hr).
    destruct (toLowerCase_split _ _ _ Hr) as (tu & tb & -> & Hu & Hb).
    exists ta, tu, tb. split; [reflexivity|].
    now apply toLowerCase_equalIgnoringCase.
  - intros (pre & u & post & -> & Hu).
    apply (toLowerCase_equalIgnoringCase u w Hw) in Hu.
    rewrite !toLowerCase_app, Hu. apply includes_app.
Qed.

Lemma trimStart_blank (s : string) :
  blank s = true -> Js.trimStart s = "".
Proof.
  induction s as [|c s IH]; simpl; [reflexivity|].
  intros H. apply andb_true_iff in H as [Hc Hs]. now rewrite Hc, IH.
Qed.

Lemma trimEnd_nonblank_head (c : ascii) (s : string) :
  Js.isWhiteSpace c = false -> Js.trimEnd (String c s) <> "".
Proof.
  intros Hc. simpl. destruct (Js.trimEnd s); [now rewrite Hc | discriminate].
Qed.

(** [!text.trim()] holds exactly of the empty and the all-white-space
    texts. *)
Lemma trim_falsy_iff_blank (s : string) :
  Js.truthy (Js.trim s) = false <-> blank s = true.
Proof.
  unfold Js.trim. split.
  - induction s as [|c s IH]; [reflexivity|].
    cbn [Js.trimStart blank]. destruct (Js.isWhiteSpace c) eqn:Hc.
    + intros H. now rewrite IH.
    + intros H. pose proof (trimEnd_nonblank_head c s Hc) as Hne.
      destruct (Js.trimEnd (String c s)); [congruence | discriminate].
  - intros H. now rewrite trimStart_blank.
Qed.

(** A header without a colon never matches [/:(.*?);/]. *)
Lemma no_colon_no_match (header : string) :
  Js.includes header ":" = false -> Js.matchMimeGroup header = None.
Proof.
  induction header as [|c r IH]; [reflexivity|].
  cbn [Js.includes Js.startsWith Js.matchMimeGroup].
  destruct (Ascii.eqb c ":") eqn:Hc.
  - destruct r; discriminate.
  - cbn [andb orb]. exact IH.
Qed.

End StringFacts.

(** ** Attachment classification *)

Lemma startsWith_iff (m p : string) :
  Js.startsWith m p = true <-> beginsWith p m.
Proof.
  split; [apply startsWith_inv | intros [rest ->]; apply startsWith_app].
Qed.

Lemma includes_iff (m w : string) : Js.includes m w = true <-> contains w m.
Proof.
  split; [apply includes_inv | intros (pre & post & ->); apply includes_app].
Qed.

Lemma includes_any_iff (m : string) (words : list string) :
  existsb (Js.includes m) words = true <-> containsAnyOf words m.
Proof.
  unfold containsAnyOf. rewrite existsb_exists.
  split; intros (w & Hin & H); exists w; (split; [exact Hin|]);
    now apply includes_iff.
Qed.

(** One [if]/[else] of the chain against one rule of the list. *)
Lemma first_match_if (holds : string -> Prop) (b : bool)
    (r x dflt t : AttachmentType) (rest : list rule) (m : string) :
  (b = true <-> holds m) ->
  (x = t <-> first_match rest dflt m t) ->
  (if b then r else x) = t <-> first_match ((holds, r) :: rest) dflt m t.
Proof.
  intros Hb Hx. cbn [first_match]. destruct b.
  - assert (holds m) by now apply Hb. tauto.
  - assert (~ holds m) by (intros H; apply Hb in H; discriminate). tauto.
Qed.

(** The [if]/[else if] chain is the first-match-wins reading of the rules
    in which a family is recognised by its name. *)
Lemma classify_classified (m : string) (t : AttachmentType) :
  classify m = t <-> classified m t.
Proof.
  unfold classify, classified, family_name_rules, word_rules. cbn [app].
  apply first_match_if; [apply startsWith_iff|].
  apply first_match_if; [apply startsWith_iff|].
  apply first_match_if.
  { rewrite String.eqb_eq. split; intros H; now symmetry. }
  apply first_match_if.
  { rewrite <- includes_any_iff. cbn [existsb].
    now rewrite orb_false_r, !orb_assoc. }
  apply first_match_if.
  { rewrite <- includes_any_iff. cbn [existsb].
    now rewrite orb_false_r, !orb_assoc. }
  apply first_match_if.
  { rewrite <- includes_any_iff. cbn [existsb].
    now rewrite orb_false_r. }
  apply first_match_if; [|reflexivity].
  rewrite negb_true_iff, <- startsWith_iff.
  destruct (Js.startsWith m "image"); split; congruence.
Qed.

Lemma ingest_fields (base64 objectURL : string) :
  mimeType (ingest base64 objectURL) = mimeTypeOf (fst (splitDataURL base64)) /\
  type (ingest base64 objectURL) = classify (mimeType (ingest base64 objectURL)).
Proof.
  unfold ingest. destruct (splitDataURL base64) as [header d]. split; reflexivity.
Qed.

(** C5, as the code has it.  The attachment type is a function of the MIME
    type alone, and that function is the first-match-wins reading of the
    ordered rules: begins with video; begins with audio; is exactly
    application/pdf; contains text, json, javascript or typescript;
    contains spreadsheet, excel or csv; contains presentation or
    powerpoint; then document for whatever does not begin with image, and
    image otherwise.  The family is recognised by its name, with or without
    the slash.  A header from which the pattern extracts no MIME type (no
    match, or an empty group) is taken as image/png, which classifies as
    image.  Every type written video/... or audio/... falls under the first
    two rules. *)
Theorem classification_is_first_match_on_mime_type :
  (forall m t, classify m = t <-> classified m t) /\
  (forall base64 objectURL,
      classified (mimeType (ingest base64 objectURL))
                 (type (ingest base64 objectURL))) /\
  (forall base64 objectURL,
      let header := fst (splitDataURL base64) in
      Js.matchMimeGroup header = None \/ Js.matchMimeGroup header = Some ""%string ->
      mimeType (ingest base64 objectURL) = "image/png"%string /\
      type (ingest base64 objectURL) = image) /\
  (forall sub : string,
      classify ("video/" ++ sub)%string = video /\
      classify ("audio/" ++ sub)%string = audio).
Proof.
  split; [exact classify_classified|].
  split.
  - intros b u. apply classify_classified.
    symmetry. apply (proj2 (ingest_fields b u)).
  - split.
    + intros b u header H.
      destruct (ingest_fields b u) as [Hm Ht].
      assert (Hpng : mimeType (ingest b u) = "image/png"%string).
      { rewrite Hm. fold header. unfold mimeTypeOf.
        destruct H as [-> | ->]; reflexivity. }
      split; [exact Hpng|]. rewrite Ht, Hpng. reflexivity.
    + intros sub. split; reflexivity.
Qed.

(** The rules at application/json, which the fourth rule takes, and at a
    header that carries no MIME type. *)
Lemma classification_witness :
  classify "application/json" = code /\
  mimeType (ingest "no header at all" "blob:9") = "image/png"%string /\
  type (ingest "no header at all" "blob:9") = image.
Proof.
  split.
  - apply (proj1 classification_is_first_match_on_mime_type
                 "application/json"%string code).
    unfold classified, family_name_rules, word_rules. cbn [app first_match].
    right. split; [intros [rest E]; discriminate E|].
    right. split; [intros [rest E]; discriminate E|].
    right. split; [discriminate|].
    left. split; [|reflexivity].
    exists "json"%string. split; [cbn; tauto|].
    exists "application/"%string, ""%string. reflexivity.
  - apply (proj1 (proj2 (proj2 classification_is_first_match_on_mime_type))
                 "no header at all"%string "blob:9"%string).
    left. reflexivity.
Defined.

(** C5 as stated fails where a MIME type opens with a family name that no
    slash follows: the rules with video/* give code for "videotext" (not of
    the video family, contains text), the code gives video. *)
Lemma bare_family_name_is_enough :
  classify "videotext" = video /\
  classified_as_stated "videotext" code /\
  ~ classified_as_stated "videotext" (classify "videotext").
Proof.
  split; [reflexivity|].
  assert (NoVideo : ~ beginsWith "video/" "videotext")
    by (intros [rest E]; discriminate E).
  assert (NoAudio : ~ beginsWith "audio/" "videotext")
    by (intros [rest E]; discriminate E).
  unfold classified_as_stated, stated_rules, word_rules.
  cbn [app first_match]. split.
  - right. split; [exact NoVideo|].
    right. split; [exact NoAudio|].
    right. split; [discriminate|].
    left. split; [|reflexivity].
    exists "text"%string. split; [cbn; tauto|].
    exists "video"%string, ""%string. reflexivity.
  - change (classify "videotext") with video.
    intros [[H _] | [_ H]]; [now apply NoVideo|].
    repeat (destruct H as [[_ H] | [_ H]]; [discriminate H|]).
    discriminate H.
Qed.

(** C6. A file whose MIME type is exactly text/csv is ingested with type
    code, not spreadsheet: the rule for the word "text" is tried before the
    rule for the word "csv". *)
Theorem csv_file_is_ingested_as_code :
  let a := ingest "data:text/csv;base64,YSxiCjEsMg==" "blob:csv" in
  mimeType a = "text/csv"%string /\
  Js.includes (mimeType a) "csv" = true /\
  type a = code /\
  type a <> spreadsheet.
Proof. cbv. repeat split; discriminate. Qed.

(** ** The submission controller *)

(** A run in isolation is the synchronous part followed by the continuation
    applied to what the gateway answers. *)
Lemma run_through_await {R : Type} (w : World) (p : prog R) (c : Run) :
  run w p c =
  match run_sync (clock w) p c with
  | (Settled r, c1) => (r, c1)
  | (Suspended op k, c1) =>
      run w (k (gateway w _ op))
          (mkRun (app c1) (reads c1) (trace c1 ++ [Called op (gateway w _ op)]))
  end.
Proof.
  revert c. induction p as [r|e|e k IH|k IH|T op k IH]; intros c; cbn;
    try reflexivity.
  - apply IH.
  - apply IH.
Qed.

(** A submission with nothing to send does nothing at all. *)
Lemma handleSend_blank_noop (w : World) (s : AppState) (c : Run) :
  blank (input s) = true -> attachments s = [] ->
  handleSend s = Ret tt /\ run w (handleSend s) c = (Fulfilled tt, c).
Proof.
  intros Hb Ha. unfold handleSend, nothingToSend.
  apply trim_falsy_iff_blank in Hb. rewrite Hb, Ha. split; reflexivity.
Qed.

(** The send button never reaches [handleSend] while the agent is busy. *)
Lemma onSendClick_gated (s : AppState) :
  status s <> IDLE -> onSendClick s = Ret tt.
Proof.
  intros H. unfold onSendClick, sendDisabled.
  destruct (status s); try reflexivity. now elim H.
Qed.

(** The Enter key reaches [handleSend] whatever the status. *)
Lemma onKeyDown_enter (s : AppState) :
  onKeyDown "Enter" false s = handleSend s.
Proof. reflexivity. Qed.

Ltac enter_handleSend H :=
  unfold handleSend; rewrite H;
  destruct (activeMode _);
  cbn -[Js.numberToString String.append].

(** C1. [handleSend] itself does not look at the status: with the first
    question still in flight (status thinking) and a second text typed, the
    send button is inert but the Enter key submits again; the transcript
    grows, the gateway is called a second time and the status is written. *)
Theorem enter_key_submits_while_busy :
  status busy = THINKING /\
  input busy = "again"%string /\
  onSendClick busy = Ret tt /\
  let '(r, c) := run (mkWorld (ticking 2000) gw_ok)
                     (onKeyDown "Enter" false busy) (start busy) in
  r = Fulfilled tt /\
  length (messages (app c)) = (length (messages busy) + 2)%nat /\
  calls (trace c)
  = [existT _ _ (chat "again" [] (mkOptions false false 500))] /\
  status_writes (trace c) = [THINKING; IDLE] /\
  app c <> busy.
Proof. cbv. repeat split; discriminate. Qed.

(** C9. A submission that has something to send clears the live composition
    buffer (text and pending attachments) first, and appends a user message
    built from the values the handler captured, whatever the live cells hold
    by then; all of it happens before the handler reaches its gateway call. *)
Theorem buffer_snapshotted_and_cleared_before_await :
  forall (clk : nat -> Z) (snap : AppState) (live : Run),
    nothingToSend snap = false ->
    exists (T : Type) (op : gateway_op T) (k : outcome T -> prog unit)
           (c1 : Run) (u : Message) (post : list event),
      run_sync clk (handleSend snap) live = (Suspended op k, c1) /\
      input (app c1) = ""%string /\
      attachments (app c1) = [] /\
      messages (app c1) = messages (app live) ++ [u] /\
      Message.role u = user /\
      Message.content u = input snap /\
      Message.attachments u = Some (attachments snap) /\
      trace c1
      = trace live ++ Did (setInput "") :: Did (setAttachments []) :: post /\
      In (Did (pushMessage u)) post /\
      calls post = [].
Proof.
  intros clk snap live H. enter_handleSend H;
    do 6 eexists; (split; [reflexivity|]); cbn;
    rewrite <- !app_assoc; cbn;
    repeat (split; [reflexivity|]); (split; [|reflexivity]);
    cbn; auto.
Qed.

(** The handler captured "hello"; the live cell has moved on since. *)
Lemma buffer_snapshot_witness :
  exists (T : Type) (op : gateway_op T) (k : outcome T -> prog unit)
         (c1 : Run) (u : Message),
    run_sync (ticking 1000) (handleSend (idle_with "hello" mode_chat))
             (start (idle_with "typed meanwhile" mode_chat))
    = (Suspended op k, c1) /\
    input (app c1) = ""%string /\
    Message.content u = "hello"%string /\
    messages (app c1) = [u].
Proof.
  destruct (buffer_snapshotted_and_cleared_before_await
              (ticking 1000) (idle_with "hello" mode_chat)
              (start (idle_with "typed meanwhile" mode_chat)) eq_refl)
    as (T & op & k & c1 & u & post & H1 & H2 & _ & H4 & _ & H6 & _).
  exists T, op, k, c1, u. repeat split; assumption.
Defined.

(** C2. A submission that has something to send parks at one gateway call;
    however that call settles, and whatever state the application is in when
    the answer arrives, the handler then runs to completion and leaves the
    status at idle.  After the answer the status is written once (idle) on
    success and twice (error, then idle) on failure, so an error status is
    overwritten before the handler returns. *)
Theorem status_idle_after_every_submission :
  forall (clk : nat -> Z) (snap : AppState) (live : Run),
    nothingToSend snap = false ->
    exists (T : Type) (op : gateway_op T) (k : outcome T -> prog unit)
           (c1 : Run),
      run_sync clk (handleSend snap) live = (Suspended op k, c1) /\
      forall (clk' : nat -> Z) (o : outcome T) (c2 : Run),
      exists (c3 : Run) (evs : list event),
        resume clk' op k o c2 = (Settled (Fulfilled tt), c3) /\
        status (app c3) = IDLE /\
        trace c3 = trace c2 ++ Called op o :: evs /\
        status_writes evs
        = match o with
          | Resolved _ => [IDLE]
          | Rejected _ => [ERROR; IDLE]
          end.
Proof.
  intros clk snap live H. enter_handleSend H;
    do 4 eexists; (split; [reflexivity|]);
    intros clk' [v|e] c2; unfold resume;
    cbn -[Js.numberToString String.append];
    do 2 eexists; (split; [reflexivity|]); (split; [reflexivity|]);
    cbn -[Js.numberToString String.append];
    rewrite <- !app_assoc; split; reflexivity.
Qed.

(** The chat scenario with a gateway that times out. *)
Lemma status_idle_witness :
  nothingToSend (idle_with "latest news on AI" mode_chat) = false /\
  exists (T : Type) (op : gateway_op T) (k : outcome T -> prog unit)
         (c1 : Run),
    run_sync (ticking 1000) (handleSend (idle_with "latest news on AI" mode_chat))
             (start (idle_with "latest news on AI" mode_chat))
    = (Suspended op k, c1) /\
    exists c3 : Run,
      fst (resume (ticking 1000) op k (Rejected (mkError "network timeout")) c1)
      = Settled (Fulfilled tt) /\
      snd (resume (ticking 1000) op k (Rejected (mkError "network timeout")) c1)
      = c3 /\
      status (app c3) = IDLE.
Proof.
  split; [reflexivity|].
  destruct (status_idle_after_every_submission
              (ticking 1000) (idle_with "latest news on AI" mode_chat)
              (start (idle_with "latest news on AI" mode_chat)) eq_refl)
    as (T & op & k & c1 & Hs & Hr).
  exists T, op, k, c1. split; [exact Hs|].
  destruct (Hr (ticking 1000) (Rejected (mkError "network timeout")) c1)
    as (c3 & evs & H3 & Hi & _).
  exists c3. rewrite H3. repeat split. exact Hi.
Defined.

(** C3. A submission that has something to send appends exactly two
    messages of its own, whether the gateway call succeeds or fails and
    whatever else happens while it waits: before its await it appends a
    user message carrying the captured text and attachments, and when it is
    resumed, in whatever state, it appends one assistant message.  The user
    message comes first: if the transcript at resumption is the one the
    handler left plus [mid], the transcript at completion is the initial
    one, the user message, [mid], the assistant message; with nothing in
    between the transcript is longer by exactly two. *)
Theorem transcript_grows_by_user_then_assistant :
  forall (clk : nat -> Z) (snap : AppState) (live : Run),
    nothingToSend snap = false ->
    exists (T : Type) (op : gateway_op T) (k : outcome T -> prog unit)
           (c1 : Run) (u : Message),
      run_sync clk (handleSend snap) live = (Suspended op k, c1) /\
      messages (app c1) = messages (app live) ++ [u] /\
      pushed (trace c1) = pushed (trace live) ++ [u] /\
      Message.role u = user /\
      Message.content u = input snap /\
      Message.attachments u = Some (attachments snap) /\
      forall (clk' : nat -> Z) (o : outcome T) (c2 : Run),
      exists (c3 : Run) (a : Message),
        resume clk' op k o c2 = (Settled (Fulfilled tt), c3) /\
        messages (app c3) = messages (app c2) ++ [a] /\
        pushed (trace c3) = pushed (trace c2) ++ [a] /\
        Message.role a = assistant /\
        (forall mid : list Message,
            messages (app c2) = messages (app c1) ++ mid ->
            messages (app c3) = messages (app live) ++ u :: mid ++ [a] /\
            length (messages (app c3))
            = (length (messages (app live)) + 2 + length mid)%nat).
Proof.
  intros clk snap live H.
  assert (Pushed : forall a b, pushed (a ++ b) = pushed a ++ pushed b).
  { intros a b. induction a as [|[e|T op o] a IH]; cbn; [reflexivity| |exact IH].
    destruct e; cbn; rewrite ?IH; reflexivity. }
  enter_handleSend H;
    do 5 eexists; (split; [reflexivity|]);
    cbn -[Js.numberToString String.append];
    (split; [reflexivity|]);
    (split; [rewrite !Pushed; cbn; rewrite ?app_nil_r; reflexivity|]);
    do 3 (split; [reflexivity|]);
    intros clk' [v|e] c2; unfold resume;
    cbn -[Js.numberToString String.append];
    do 2 eexists; (split; [reflexivity|]);
    cbn -[Js.numberToString String.append];
    (split; [reflexivity|]);
    (split; [rewrite !Pushed; cbn; rewrite ?app_nil_r; reflexivity|]);
    (split; [reflexivity|]);
    intros mid Hmid; rewrite Hmid, <- !app_assoc; cbn [app];
    (split; [reflexivity|]);
    rewrite ?length_app; cbn [length]; rewrite ?length_app; cbn [length]; lia.
Qed.

(** The image scenario on an empty transcript, answered with nothing in
    between: two messages, user then assistant. *)
Lemma transcript_growth_witness :
  nothingToSend (idle_with "generate a sunset" mode_image) = false /\
  exists (T : Type) (op : gateway_op T) (k : outcome T -> prog unit)
         (c1 c3 : Run) (u a : Message),
    run_sync (ticking 1000) (handleSend (idle_with "generate a sunset" mode_image))
             (start (idle_with "generate a sunset" mode_image))
    = (Suspended op k, c1) /\
    resume (ticking 1000) op k (Rejected (mkError "quota exceeded")) c1
    = (Settled (Fulfilled tt), c3) /\
    messages (app c3) = [u; a] /\
    Message.role u = user /\ Message.role a = assistant.
Proof.
  split; [reflexivity|].
  destruct (transcript_grows_by_user_then_assistant
              (ticking 1000) (idle_with "generate a sunset" mode_image)
              (start (idle_with "generate a sunset" mode_image)) eq_refl)
    as (T & op & k & c1 & u & Hs & Hm & _ & Hu & _ & _ & Hr).
  destruct (Hr (ticking 1000) (Rejected (mkError "quota exceeded")) c1)
    as (c3 & a & H3 & _ & _ & Ha & Hmid).
  exists T, op, k, c1, c3, u, a.
  split; [exact Hs|]. split; [exact H3|].
  split; [|split; assumption].
  destruct (Hmid [] (eq_sym (app_nil_r _))) as [E _]. exact E.
Defined.

(** C4. When the gateway call of a submission is rejected with an error
    whose message is [m], the handler still completes normally (its promise
    is fulfilled, nothing is rethrown) and the message it appends is an
    assistant message whose content is the fixed prefix followed by [m], so
    that it contains [m]. *)
Theorem gateway_failure_becomes_assistant_message :
  forall (clk : nat -> Z) (snap : AppState) (live : Run),
    nothingToSend snap = false ->
    exists (T : Type) (op : gateway_op T) (k : outcome T -> prog unit)
           (c1 : Run),
      run_sync clk (handleSend snap) live = (Suspended op k, c1) /\
      forall (clk' : nat -> Z) (e : JsError) (c2 : Run),
      exists (c3 : Run) (a : Message),
        resume clk' op k (Rejected e) c2 = (Settled (Fulfilled tt), c3) /\
        messages (app c3) = messages (app c2) ++ [a] /\
        Message.role a = assistant /\
        Message.content a = (errorPrefix ++ message e)%string /\
        Js.includes (Message.content a) (message e) = true.
Proof.
  intros clk snap live H. enter_handleSend H;
    do 4 eexists; (split; [reflexivity|]);
    intros clk' e c2; unfold resume;
    cbn -[Js.numberToString String.append];
    do 2 eexists; (split; [reflexivity|]);
    cbn -[Js.numberToString String.append];
    (split; [reflexivity|]); (split; [reflexivity|]); (split; [reflexivity|]);
    cbn -[Js.includes String.append];
    apply includes_suffix.
Qed.

(** The rejection "network timeout" shows up in the transcript. *)
Lemma gateway_failure_witness :
  nothingToSend (idle_with "latest news on AI" mode_chat) = false /\
  exists (T : Type) (op : gateway_op T) (k : outcome T -> prog unit)
         (c1 c3 : Run) (a : Message),
    run_sync (ticking 1000) (handleSend (idle_with "latest news on AI" mode_chat))
             (start (idle_with "latest news on AI" mode_chat))
    = (Suspended op k, c1) /\
    resume (ticking 1000) op k (Rejected (mkError "network timeout")) c1
    = (Settled (Fulfilled tt), c3) /\
    messages (app c3) = messages (app c1) ++ [a] /\
    Js.includes (Message.content a) "network timeout" = true.
Proof.
  split; [reflexivity|].
  destruct (gateway_failure_becomes_assistant_message
              (ticking 1000) (idle_with "latest news on AI" mode_chat)
              (start (idle_with "latest news on AI" mode_chat)) eq_refl)
    as (T & op & k & c1 & Hs & Hr).
  destruct (Hr (ticking 1000) (mkError "network timeout") c1)
    as (c3 & a & H3 & Hm & _ & _ & Hin).
  exists T, op, k, c1, c3, a. repeat split; assumption.
Defined.

(** C7, as the code has it.  In image mode the handler parks at
    [generateImage] with the captured text as prompt; when that resolves the
    appended assistant message has the fixed image caption followed by the
    prompt as content (so it contains the prompt) and exactly one attachment:
    type image, the returned url, no data, MIME type image/png.  In video
    mode the handler parks at [generateVideo]; when that resolves the
    assistant message has the fixed video caption as content, whatever the
    prompt, and exactly one attachment: type video, the returned url, no
    data, MIME type video/mp4. *)
Theorem media_reply_caption_and_attachment :
  forall (clk : nat -> Z) (snap : AppState) (live : Run),
    nothingToSend snap = false ->
    (activeMode snap = mode_image ->
     exists (k : outcome MediaResult -> prog unit) (c1 : Run),
       run_sync clk (handleSend snap) live
       = (Suspended (generateImage (input snap)) k, c1) /\
       forall (clk' : nat -> Z) (r : MediaResult) (c2 : Run),
       exists (c3 : Run) (a : Message),
         resume clk' (generateImage (input snap)) k (Resolved r) c2
         = (Settled (Fulfilled tt), c3) /\
         messages (app c3) = messages (app c2) ++ [a] /\
         Message.role a = assistant /\
         Message.content a = (imageCaption ++ input snap)%string /\
         Js.includes (Message.content a) (input snap) = true /\
         Message.attachments a
         = Some [mkAttachment image (media_url r) None "image/png"]) /\
    (activeMode snap = mode_video ->
     exists (k : outcome MediaResult -> prog unit) (c1 : Run),
       run_sync clk (handleSend snap) live
       = (Suspended (generateVideo (input snap)) k, c1) /\
       forall (clk' : nat -> Z) (r : MediaResult) (c2 : Run),
       exists (c3 : Run) (a : Message),
         resume clk' (generateVideo (input snap)) k (Resolved r) c2
         = (Settled (Fulfilled tt), c3) /\
         messages (app c3) = messages (app c2) ++ [a] /\
         Message.role a = assistant /\
         Message.content a = videoCaption /\
         Message.attachments a
         = Some [mkAttachment video (media_url r) None "video/mp4"]).
Proof.
  intros clk snap live H. split; intros Hmode;
    unfold handleSend; rewrite H, Hmode;
    cbn -[Js.numberToString String.append];
    do 2 eexists; (split; [reflexivity|]);
    intros clk' r c2; unfold resume;
    cbn -[Js.numberToString String.append];
    do 2 eexists; (split; [reflexivity|]);
    cbn -[Js.numberToString String.append Js.includes];
    repeat (split; [reflexivity|]);
    try (split; [apply includes_suffix|]); reflexivity.
Qed.

(** The image scenario, resumed with the gateway's handle. *)
Lemma media_reply_witness :
  nothingToSend (idle_with "generate a sunset" mode_image) = false /\
  activeMode (idle_with "generate a sunset" mode_image) = mode_image /\
  exists (k : outcome MediaResult -> prog unit) (c1 c3 : Run) (a : Message),
    run_sync (ticking 1000) (handleSend (idle_with "generate a sunset" mode_image))
             (start (idle_with "generate a sunset" mode_image))
    = (Suspended (generateImage "generate a sunset") k, c1) /\
    resume (ticking 1000) (generateImage "generate a sunset") k
           (Resolved (mkMedia sunsetURL)) c1
    = (Settled (Fulfilled tt), c3) /\
    Message.content a
    = "Here's the image you requested based on: generate a sunset"%string /\
    Message.attachments a
    = Some [mkAttachment image sunsetURL None "image/png"].
Proof.
  split; [reflexivity|]. split; [reflexivity|].
  destruct (proj1 (media_reply_caption_and_attachment
                     (ticking 1000) (idle_with "generate a sunset" mode_image)
                     (start (idle_with "generate a sunset" mode_image)) eq_refl)
                  eq_refl)
    as (k & c1 & Hs & Hr).
  destruct (Hr (ticking 1000) (mkMedia sunsetURL) c1)
    as (c3 & a & H3 & _ & _ & Hc & _ & Ha).
  exists k, c1, c3, a. repeat split; assumption.
Defined.

(** C7 as stated fails in video mode: a successful video submission of the
    prompt "generate a sunset" is answered with a caption that mentions
    neither the prompt nor the word "sunset". *)
Lemma video_caption_does_not_reference_prompt :
  activeMode video_request = mode_video /\
  nothingToSend video_request = false /\
  fst video_run = Fulfilled tt /\
  map Message.role (messages (app (snd video_run))) = [user; assistant] /\
  map Message.content (messages (app (snd video_run)))
  = [input video_request; "I've generated this video for you."%string] /\
  Js.includes "I've generated this video for you." (input video_request) = false /\
  Js.includes "I've generated this video for you." "sunset" = false.
Proof. cbv. repeat split. Qed.

(** C8. In chat mode (any mode other than image and video) the handler parks
    at the gateway's [chat] operation with the captured text, the captured
    attachments and an options record in which [useSearch] is set exactly
    when the text contains "search" or "latest" up to letter case, [useMaps]
    exactly when it contains "location" or "near me" up to letter case, and
    the thinking budget is the configured one. *)
Theorem chat_options_follow_the_text :
  forall (clk : nat -> Z) (snap : AppState) (live : Run),
    nothingToSend snap = false ->
    activeMode snap <> mode_image ->
    activeMode snap <> mode_video ->
    exists (options : ChatOptions) (k : outcome ChatResult -> prog unit)
           (c1 : Run),
      run_sync clk (handleSend snap) live
      = (Suspended (chat (input snap) (attachments snap) options) k, c1) /\
      (useSearch options = true <->
       containsIgnoringCase (input snap) "search" \/
       containsIgnoringCase (input snap) "latest") /\
      (useMaps options = true <->
       containsIgnoringCase (input snap) "location" \/
       containsIgnoringCase (input snap) "near me") /\
      opt_thinkingBudget options = thinkingBudget snap.
Proof.
  intros clk snap live H Hi Hv.
  exists (chatOptions (input snap) (thinkingBudget snap)).
  assert (Hrun : exists k c1,
             run_sync clk (handleSend snap) live
             = (Suspended (chat (input snap) (attachments snap)
                                (chatOptions (input snap) (thinkingBudget snap)))
                          k, c1)).
  { unfold handleSend; rewrite H.
    destruct (activeMode snap); try congruence;
      cbn -[Js.numberToString String.append chatOptions];
      do 2 eexists; reflexivity. }
  destruct Hrun as (k & c1 & Hrun). exists k, c1.
  split; [exact Hrun|].
  cbn [chatOptions useSearch useMaps opt_thinkingBudget].
  rewrite !orb_true_iff.
  rewrite <- !includes_lowered by reflexivity.
  repeat split; tauto.
Qed.

(** A capitalised "Latest" still switches search on. *)
Lemma chat_options_witness :
  nothingToSend (idle_with "Latest news on AI" mode_chat) = false /\
  exists (options : ChatOptions) (k : outcome ChatResult -> prog unit)
         (c1 : Run),
    run_sync (ticking 1000) (handleSend (idle_with "Latest news on AI" mode_chat))
             (start (idle_with "Latest news on AI" mode_chat))
    = (Suspended (chat "Latest news on AI" [] options) k, c1) /\
    useSearch options = true /\
    opt_thinkingBudget options = 500%Z.
Proof.
  split; [reflexivity|].
  destruct (chat_options_follow_the_text
              (ticking 1000) (idle_with "Latest news on AI" mode_chat)
              (start (idle_with "Latest news on AI" mode_chat)) eq_refl)
    as (options & k & c1 & Hs & Hsearch & _ & Hb);
    [discriminate | discriminate |].
  exists options, k, c1. split; [exact Hs|]. split; [|exact Hb].
  apply Hsearch. right.
  exists ""%string, "Latest"%string, " news on AI"%string.
  split; [reflexivity|].
  constructor.
  { right. left. cbv [letters capitals smalls list_ascii_of_string combine In].
    repeat (first [left; reflexivity | right]). }
  repeat (constructor; [left; reflexivity|]). constructor.
Defined.

(** C10. Identifiers are the clock reading at creation, so two messages
    created within one millisecond share their [id]: when the gateway
    rejects at once, the user message and the error message of one
    submission are distinct entries of the transcript with equal ids. *)
Theorem same_millisecond_messages_share_id :
  let s := idle_with "latest news on AI" mode_chat in
  let c := snd (run (mkWorld (frozen 1730000000000) (gw_fail "network timeout"))
                    (handleSend s) (start s)) in
  map Message.id (messages (app c)) = ["1730000000000"%string; "1730000000000"%string] /\
  map Message.role (messages (app c)) = [user; assistant] /\
  ~ unique_ids (messages (app c)).
Proof.
  cbv zeta. split; [vm_compute; reflexivity|]. split; [vm_compute; reflexivity|].
  intros U. apply (U 0%nat 1%nat _ _ (O_S 0) eq_refl eq_refl). reflexivity.
Qed.


(** ** Further properties of the attachment ingestor *)

Section IngestFacts.

Local Open Scope string_scope.

Lemma str_app_assoc (a b c : string) : (a ++ b) ++ c = a ++ b ++ c.
Proof. induction a as [|x a IH]; cbn; [reflexivity | now rewrite IH]. Qed.

Lemma split_head (sep : ascii) (h rest : string) :
  lacks sep h = true ->
  Js.split sep (h ++ String sep rest) = h :: Js.split sep rest.
Proof.
  unfold lacks. induction h as [|x h IH]; intros H.
  - cbn. now rewrite Ascii.eqb_refl.
  - cbn in H. apply andb_true_iff in H as [Hx Hh].
    apply negb_true_iff in Hx.
    cbn. rewrite Hx, (IH Hh). reflexivity.
Qed.

Lemma split_whole (sep : ascii) (s : string) :
  lacks sep s = true -> Js.split sep s = [s].
Proof.
  unfold lacks. induction s as [|x s IH]; intros H; [reflexivity|].
  cbn in H. apply andb_true_iff in H as [Hx Hs].
  apply negb_true_iff in Hx. cbn. now rewrite Hx, (IH Hs).
Qed.

(** The pieces of a split are free of the separator, and there is a single
    piece exactly when the text is. *)
Lemma split_pieces (sep : ascii) (s : string) :
  exists h t,
    Js.split sep s = h :: t /\
    lacks sep h = true /\
    Forall (fun x => lacks sep x = true) t /\
    (t = [] <-> lacks sep s = true).
Proof.
  unfold lacks. induction s as [|x s (h & t & E & Hh & Ht & Hi)].
  - exists "", []. repeat split; auto.
  - cbn [Js.split free_of]. destruct (Ascii.eqb x sep) eqn:Hx.
    + exists "", (h :: t). rewrite E. repeat split; auto; discriminate.
    + rewrite E. exists (String x h), t. cbn. rewrite Hx. cbn.
      repeat split; auto; apply Hi.
Qed.

Lemma lazyUntilSemicolon_stops (g rest : string) :
  lacks ";" g = true -> free_of Js.isLineTerminator g = true ->
  Js.lazyUntilSemicolon (g ++ String ";" rest) = Some g.
Proof.
  unfold lacks. induction g as [|x g IH]; intros Hs Hl; [reflexivity|].
  cbn in Hs, Hl. apply andb_true_iff in Hs as [Hx Hs].
  apply andb_true_iff in Hl as [Hxl Hl].
  apply negb_true_iff in Hx, Hxl.
  cbn. now rewrite Hx, Hxl, (IH Hs Hl).
Qed.

Lemma lazyUntilSemicolon_group (s g : string) :
  Js.lazyUntilSemicolon s = Some g ->
  lacks ";" g = true /\ free_of Js.isLineTerminator g = true /\
  exists rest, s = g ++ String ";" rest.
Proof.
  unfold lacks. revert g. induction s as [|x s IH]; intros g H; [discriminate|].
  cbn in H. destruct (Ascii.eqb x ";") eqn:Hx.
  - injection H as <-. apply Ascii.eqb_eq in Hx. subst x.
    repeat split. now exists s.
  - destruct (Js.isLineTerminator x) eqn:Hl; [discriminate|].
    destruct (Js.lazyUntilSemicolon s) as [g'|]; [|discriminate].
    injection H as <-. destruct (IH g' eq_refl) as (A & B & rest & ->).
    cbn. rewrite Hx, Hl, A, B. repeat split. now exists rest.
Qed.

Lemma matchMimeGroup_group (s g : string) :
  Js.matchMimeGroup s = Some g ->
  lacks ";" g = true /\ free_of Js.isLineTerminator g = true /\
  Js.includes s (":" ++ g ++ ";") = true.
Proof.
  induction s as [|x s IH]; intros H; [discriminate|].
  cbn [Js.matchMimeGroup] in H.
  assert (Later : Js.matchMimeGroup s = Some g ->
                  lacks ";" g = true /\ free_of Js.isLineTerminator g = true /\
                  Js.includes (String x s) (":" ++ g ++ ";") = true).
  { intros H'. destruct (IH H') as (A & B & C). repeat split; auto.
    cbn [Js.includes]. rewrite C. apply orb_true_r. }
  destruct (Ascii.eqb x ":") eqn:Hx; [|auto].
  destruct (Js.lazyUntilSemicolon s) as [g'|] eqn:Hg; [|auto].
  injection H as <-. apply Ascii.eqb_eq in Hx. subst x.
  destruct (lazyUntilSemicolon_group _ _ Hg) as (A & B & rest & ->).
  repeat split; auto.
  assert (E : String ":" (g' ++ String ";" rest)
              = "" ++ (":" ++ g' ++ ";") ++ rest).
  { cbn. f_equal. symmetry. apply (str_app_assoc g' ";" rest). }
  rewrite E. apply includes_app.
Qed.

End IngestFacts.

Lemma free_of_app (bad : ascii -> bool) (a b : string) :
  free_of bad (a ++ b)%string = free_of bad a && free_of bad b.
Proof.
  induction a as [|x a IH]; cbn; [reflexivity|].
  now rewrite IH, andb_assoc.
Qed.

(** X1. The reader's result for a file of MIME type [mime] is the data URL
    data:mime;params,payload; when [mime] is non-empty and free of
    semicolons, commas and line breaks, and neither the parameters nor the
    payload hold a comma, the attachment carries exactly [mime] as MIME type
    (the parameters are dropped), the payload as data, the object URL as url,
    and the type the rules give for [mime]. *)
Theorem ingest_reads_well_formed_data_url :
  forall mime params payload objectURL : string,
    Js.truthy mime = true ->
    lacks ";" mime = true ->
    lacks "," mime = true ->
    free_of Js.isLineTerminator mime = true ->
    lacks "," params = true ->
    lacks "," payload = true ->
    ingest ("data:" ++ mime ++ ";" ++ params ++ "," ++ payload)%string objectURL
    = mkAttachment (classify mime) objectURL (Some payload) mime.
Proof.
  intros mime params payload u Hne Hsemi Hcomma Hline Hparams Hpayload.
  assert (Hheader : lacks "," ("data:" ++ mime ++ ";" ++ params)%string = true).
  { unfold lacks in *.
    rewrite (free_of_app _ "data:"), (free_of_app _ mime), (free_of_app _ ";").
    now rewrite Hcomma, Hparams. }
  assert (Hsplit : Js.split "," ("data:" ++ mime ++ ";" ++ params ++ "," ++ payload)%string
                   = [("data:" ++ mime ++ ";" ++ params)%string; payload]).
  { replace ("data:" ++ mime ++ ";" ++ params ++ "," ++ payload)%string
      with (("data:" ++ mime ++ ";" ++ params) ++ String "," payload)%string.
    - rewrite (split_head _ _ _ Hheader), (split_whole _ _ Hpayload). reflexivity.
    - cbn. do 5 f_equal. rewrite str_app_assoc. f_equal. }
  assert (Hmime : mimeTypeOf ("data:" ++ mime ++ ";" ++ params)%string = mime).
  { unfold mimeTypeOf. cbn -[Js.lazyUntilSemicolon].
    change (mime ++ String ";" params)%string
      with (mime ++ String ";" params)%string.
    rewrite (lazyUntilSemicolon_stops mime params Hsemi Hline).
    cbn. now rewrite Hne. }
  unfold ingest, splitDataURL. rewrite Hsplit. cbn [nth_error].
  rewrite Hmime. reflexivity.
Qed.

(** A spreadsheet saved by an office suite. *)
Lemma ingest_data_url_witness :
  ingest "data:application/vnd.ms-excel;base64,0M8R4KGx" "blob:xls"
  = mkAttachment spreadsheet "blob:xls" (Some "0M8R4KGx"%string)
                 "application/vnd.ms-excel".
Proof.
  exact (ingest_reads_well_formed_data_url
           "application/vnd.ms-excel" "base64" "0M8R4KGx" "blob:xls"
           eq_refl eq_refl eq_refl eq_refl eq_refl eq_refl).
Defined.

Lemma classify_range (m : string) : classify m <> text /\ classify m <> note.
Proof.
  cbv [classify].
  destruct (Js.startsWith m "video"); [split; discriminate|].
  destruct (Js.startsWith m "audio"); [split; discriminate|].
  destruct (String.eqb m "application/pdf"); [split; discriminate|].
  destruct (_ || _); [split; discriminate|].
  destruct (_ || _); [split; discriminate|].
  destruct (_ || _); [split; discriminate|].
  destruct (negb _); split; discriminate.
Qed.

(** X2. Of the ten values of [Attachment.type], the ingestor never produces
    [text] nor [note], whatever the reader hands over. *)
Theorem ingest_never_text_nor_note :
  forall base64 objectURL : string,
    type (ingest base64 objectURL) <> text /\
    type (ingest base64 objectURL) <> note.
Proof.
  intros b u. destruct (ingest_fields b u) as [_ ->]. apply classify_range.
Qed.

(** X3. Whatever the reader hands over, the MIME type stored on the
    attachment is never empty and holds no semicolon, no comma and no line
    break. *)
Theorem ingested_mime_type_is_clean :
  forall base64 objectURL : string,
    let m := mimeType (ingest base64 objectURL) in
    Js.truthy m = true /\
    lacks ";" m = true /\
    lacks "," m = true /\
    free_of Js.isLineTerminator m = true.
Proof.
  intros b u m. subst m. destruct (ingest_fields b u) as [-> _].
  unfold splitDataURL.
  destruct (split_pieces "," b) as (h & t & -> & Hh & _ & _). cbn [fst].
  unfold mimeTypeOf, Js.orElse.
  destruct (Js.matchMimeGroup h) as [g|] eqn:Hg; [|repeat split].
  destruct (Js.truthy g) eqn:Ht; [|repeat split].
  destruct (matchMimeGroup_group _ _ Hg) as (A & B & C).
  repeat split; auto.
  destruct (includes_inv _ _ C) as (pre & post & E).
  unfold lacks in *. rewrite E in Hh.
  rewrite free_of_app in Hh. apply andb_true_iff in Hh as [_ Hh].
  rewrite free_of_app in Hh. apply andb_true_iff in Hh as [Hh _].
  change (":" ++ g ++ ";")%string with (":" ++ (g ++ ";"))%string in Hh.
  rewrite free_of_app in Hh. apply andb_true_iff in Hh as [_ Hh].
  rewrite free_of_app in Hh. now apply andb_true_iff in Hh as [Hh _].
Qed.

(** X4. The attachment has no data exactly when the reader's result holds no
    comma; a data that is present never holds a comma itself (a result with
    several commas keeps the piece between the first two). *)
Theorem ingest_data_follows_the_first_comma :
  forall base64 objectURL : string,
    (data (ingest base64 objectURL) = None <-> lacks "," base64 = true) /\
    (forall d, data (ingest base64 objectURL) = Some d -> lacks "," d = true).
Proof.
  intros b u. unfold ingest, splitDataURL.
  destruct (split_pieces "," b) as (h & t & -> & Hh & Ht & Hi). cbn [data].
  destruct t as [|d t]; cbn [nth_error].
  - split; [split; intros _; [now apply Hi | reflexivity] | discriminate].
  - split.
    + split; [discriminate|]. intros H. apply Hi in H. discriminate.
    + intros d' [= <-]. now inversion Ht.
Qed.

(** X5. A MIME type that holds one of the words text, json, javascript or
    typescript anywhere, and begins with neither video nor audio, is ingested
    as code: the whole text family (text/csv, text/html) and, for one, the
    OpenDocument text type. *)
Theorem mime_with_code_word_is_code :
  forall w pre post : string,
    In w ["text"; "json"; "javascript"; "typescript"]%string ->
    Js.startsWith (pre ++ w ++ post)%string "video" = false ->
    Js.startsWith (pre ++ w ++ post)%string "audio" = false ->
    classify (pre ++ w ++ post)%string = code.
Proof.
  intros w pre post Hw Hv Ha.
  pose proof (includes_app pre w post) as Hin.
  cbv [classify]. rewrite Hv, Ha.
  destruct (String.eqb_spec (pre ++ w ++ post)%string "application/pdf") as [E|_].
  - rewrite E in Hin.
    destruct Hw as [<-|[<-|[<-|[<-|[]]]]]; discriminate Hin.
  - destruct Hw as [<-|[<-|[<-|[<-|[]]]]]; rewrite Hin;
      rewrite ?orb_true_r; reflexivity.
Qed.

(** A word-processor document of the OpenDocument family. *)
Lemma mime_with_code_word_witness :
  classify "application/vnd.oasis.opendocument.text" = code.
Proof.
  exact (mime_with_code_word_is_code
           "text" "application/vnd.oasis.opendocument." ""
           (or_introl eq_refl) eq_refl eq_refl).
Defined.

(** ** The remove button and the reasoning toggle *)

Lemma filterOutIndex_past {A : Type} (i idx : nat) (l : list A) :
  i < idx -> filterOutIndex i idx l = l.
Proof.
  revert idx. induction l as [|x l IH]; intros idx H; [reflexivity|].
  cbn. destruct (Nat.eqb_spec idx i); [lia|]. cbn. f_equal. apply IH. lia.
Qed.

Lemma filterOutIndex_drops {A : Type} (k idx : nat) (l : list A) :
  filterOutIndex (idx + k) idx l = dropNth k l.
Proof.
  revert k idx. induction l as [|x l IH]; intros k idx.
  - unfold dropNth. now destruct k.
  - cbn [filterOutIndex]. destruct k as [|k].
    + rewrite Nat.add_0_r, Nat.eqb_refl. cbn.
      apply filterOutIndex_past. lia.
    + destruct (Nat.eqb_spec idx (idx + S k)); [lia|]. cbn.
      replace (idx + S k) with (S idx + k) by lia.
      rewrite IH. reflexivity.
Qed.

(** X6. The remove button of the [i]-th pending attachment takes out that
    one entry and keeps the others in order; an index past the end changes
    nothing; the rest of the state is untouched. *)
Theorem removeAttachment_drops_the_ith :
  forall (i : nat) (s : AppState),
    attachments (removeAttachment i s)
    = firstn i (attachments s) ++ skipn (S i) (attachments s) /\
    (i < length (attachments s) ->
     S (length (attachments (removeAttachment i s))) = length (attachments s)) /\
    (length (attachments s) <= i -> removeAttachment i s = s) /\
    messages (removeAttachment i s) = messages s /\
    input (removeAttachment i s) = input s /\
    status (removeAttachment i s) = status s.
Proof.
  intros i s.
  assert (E : attachments (removeAttachment i s)
              = firstn i (attachments s) ++ skipn (S i) (attachments s)).
  { cbn. apply (filterOutIndex_drops i 0). }
  split; [exact E|]. split; [|split; [|repeat split]].
  - intros H. rewrite E, length_app, length_firstn, length_skipn. lia.
  - intros H. destruct s as [ms inp st atts md tb]. cbn in *.
    unfold removeAttachment. cbn. f_equal.
    rewrite (filterOutIndex_drops i 0). unfold dropNth.
    rewrite firstn_all2 by exact H.
    rewrite skipn_all2 by lia. apply app_nil_r.
Qed.

(** Three pending files, the middle one removed. *)
Lemma removeAttachment_witness :
  map url (attachments
             (removeAttachment 1
                (mkState [] "" IDLE
                         [ingest "data:image/png;base64,AA" "blob:a";
                          ingest "data:text/csv;base64,BB" "blob:b";
                          ingest "data:video/mp4;base64,CC" "blob:c"]
                         mode_chat 500)))
  = ["blob:a"%string; "blob:c"%string].
Proof.
  rewrite (proj1 (removeAttachment_drops_the_ith 1 _)). reflexivity.
Defined.

(** X7. Removing the attachment a file upload has just appended puts the
    pending list back as it was. *)
Theorem upload_then_remove_restores :
  forall (clk : nat -> Z) (base64 objectURL : string) (c : Run),
    removeAttachment (length (attachments (app c)))
      (app (snd (run_sync clk (reader_onload base64 objectURL) c)))
    = app c.
Proof.
  intros clk b u c. destruct c as [[ms inp st atts md tb] n tr].
  cbn -[ingest]. unfold removeAttachment. cbn -[ingest]. f_equal.
  rewrite (filterOutIndex_drops (length atts) 0). unfold dropNth.
  rewrite firstn_app, Nat.sub_diag, firstn_all. cbn [firstn].
  rewrite skipn_all2 by (rewrite length_app; cbn; lia).
  now rewrite !app_nil_r.
Qed.

(** X8. The reasoning toggle only ever sets the budget to 0 or 500: a budget
    of 0 becomes 500 and any other becomes 0, so from the second press on
    the presses alternate between the two. *)
Theorem toggleReasoning_alternates :
  forall s : AppState,
    (thinkingBudget s = 0%Z -> thinkingBudget (toggleReasoning s) = 500%Z) /\
    (thinkingBudget s <> 0%Z -> thinkingBudget (toggleReasoning s) = 0%Z) /\
    toggleReasoning (toggleReasoning (toggleReasoning s)) = toggleReasoning s /\
    (thinkingBudget s = 0%Z \/ thinkingBudget s = 500%Z ->
     toggleReasoning (toggleReasoning s) = s).
Proof.
  intros [ms inp st atts md tb]. unfold toggleReasoning. cbn.
  destruct (Z.eqb_spec tb 0) as [->|Hne]; cbn.
  - repeat split; auto; congruence.
  - repeat split; auto; try congruence.
    intros [H|H]; [congruence | now subst].
Qed.

(** Two presses from the initial budget of 500. *)
Lemma toggleReasoning_witness :
  toggleReasoning (toggleReasoning initialState) = initialState.
Proof.
  apply (proj2 (proj2 (proj2 (toggleReasoning_alternates initialState)))).
  right. reflexivity.
Defined.

(** ** Further properties of [handleSend] *)

Lemma nothingToSend_iff_blank (s : AppState) :
  nothingToSend s = true <-> blank (input s) = true /\ attachments s = [].
Proof.
  unfold nothingToSend. rewrite andb_true_iff, negb_true_iff.
  rewrite trim_falsy_iff_blank, Nat.eqb_eq.
  split; intros [A B]; split; auto.
  - now destruct (attachments s).
  - now rewrite B.
Qed.

(** The synchronous part of a submission, and what its parked continuation
    will do. *)
Lemma handleSend_parks (clk : nat -> Z) (snap : AppState) (c : Run) :
  nothingToSend snap = false ->
  exists (T : Type) (op : gateway_op T) (k : outcome T -> prog unit)
         (c1 : Run) (u : Message),
    run_sync clk (handleSend snap) c = (Suspended op k, c1) /\
    messages (app c1) = messages (app c) ++ [u] /\
    Message.role u = user /\
    Message.content u = input snap /\
    Message.attachments u = Some (attachments snap) /\
    Message.id u = Js.numberToString (clk (reads c)) /\
    input (app c1) = ""%string /\
    attachments (app c1) = [] /\
    status (app c1) = waitingStatus (activeMode snap) /\
    activeMode (app c1) = activeMode (app c) /\
    thinkingBudget (app c1) = thinkingBudget (app c) /\
    reads c1 = S (S (reads c)) /\
    answers_once (mkParked T op k).
Proof.
  intros H. enter_handleSend H;
    do 5 eexists; (split; [reflexivity|]);
    cbn -[Js.numberToString String.append];
    do 11 (split; [reflexivity|]);
    intros clk' [v|e] c2; unfold resume;
    cbn -[Js.numberToString String.append];
    do 2 eexists; (split; [reflexivity|]);
    cbn -[Js.numberToString String.append classify];
    (split; [reflexivity|]); (split; [reflexivity|]);
    (split; [|repeat split]);
    try exact I;
    repeat constructor.
Qed.

(** A submission run on its own. *)
Lemma handleSend_runs (w : World) (snap : AppState) (c : Run) :
  nothingToSend snap = false ->
  exists (u a : Message) (c' : Run),
    run w (handleSend snap) c = (Fulfilled tt, c') /\
    messages (app c') = messages (app c) ++ [u; a] /\
    Message.id u = Js.numberToString (clock w (reads c)) /\
    Message.role u = user /\
    Message.role a = assistant /\
    status (app c') = IDLE.
Proof.
  intros H.
  destruct (handleSend_parks (clock w) snap c H)
    as (T & op & k & c1 & u & Hs & Hm & Hr & _ & _ & Hid & _ & _ & _ & _ & _ & _ & Hk).
  rewrite run_through_await, Hs.
  destruct (Hk (clock w) (gateway w T op) c1) as (c' & a & Hres & Hm' & Ha & _ & Hi & _).
  unfold resume in Hres. cbn [p_op p_k p_T] in Hres.
  rewrite run_through_await, Hres.
  exists u, a, c'. split; [reflexivity|].
  rewrite Hm', Hm, <- app_assoc. repeat split; auto.
Qed.

(** X9. A submission changes nothing at all exactly when the captured text
    is blank (empty or white space only) and no attachment is pending; a
    message made of attachments alone is sent. *)
Theorem handleSend_noop_iff_blank_and_no_attachment :
  forall (w : World) (s : AppState) (c : Run),
    snd (run w (handleSend s) c) = c <->
    blank (input s) = true /\ attachments s = [].
Proof.
  intros w s c. rewrite <- nothingToSend_iff_blank. split.
  - intros H. destruct (nothingToSend s) eqn:E; [reflexivity|].
    destruct (handleSend_runs w s c E) as (u & a & c' & Hrun & Hm & _).
    rewrite Hrun in H. cbn in H. subst c'.
    apply (f_equal (@length _)) in Hm. rewrite length_app in Hm. cbn in Hm. lia.
  - intros H. unfold handleSend. now rewrite H.
Qed.

(** X10. In chat mode a resolved gateway call is answered with an assistant
    message whose content is the returned text verbatim, whose grounding
    sources are the returned list, and which has no attachments. *)
Theorem chat_reply_is_verbatim :
  forall (clk : nat -> Z) (snap : AppState) (live : Run),
    nothingToSend snap = false ->
    activeMode snap <> mode_image ->
    activeMode snap <> mode_video ->
    exists (op : gateway_op ChatResult) (k : outcome ChatResult -> prog unit)
           (c1 : Run),
      run_sync clk (handleSend snap) live = (Suspended op k, c1) /\
      forall (clk' : nat -> Z) (r : ChatResult) (c2 : Run),
      exists (c3 : Run) (a : Message),
        resume clk' op k (Resolved r) c2 = (Settled (Fulfilled tt), c3) /\
        messages (app c3) = messages (app c2) ++ [a] /\
        Message.role a = assistant /\
        Message.content a = chat_text r /\
        Message.groundingSources a = Some (chat_sources r) /\
        Message.attachments a = None.
Proof.
  intros clk snap live H Hi Hv. unfold handleSend. rewrite H.
  destruct (activeMode snap); try congruence;
    cbn -[Js.numberToString String.append chatOptions];
    do 3 eexists; (split; [reflexivity|]);
    intros clk' r c2; unfold resume;
    cbn -[Js.numberToString String.append chatOptions];
    do 2 eexists; repeat split.
Qed.

(** The gateway's text and sources land in the transcript. *)
Lemma chat_reply_witness :
  exists (op : gateway_op ChatResult) (k : outcome ChatResult -> prog unit)
         (c1 c3 : Run) (a : Message),
    run_sync (ticking 1000) (handleSend (idle_with "hello" mode_chat))
             (start (idle_with "hello" mode_chat))
    = (Suspended op k, c1) /\
    resume (ticking 1000) op k
           (Resolved (mkChat "hi there" [mkGroundingSource (Some "t") None])) c1
    = (Settled (Fulfilled tt), c3) /\
    Message.content a = "hi there"%string /\
    Message.groundingSources a = Some [mkGroundingSource (Some "t"%string) None].
Proof.
  destruct (chat_reply_is_verbatim
              (ticking 1000) (idle_with "hello" mode_chat)
              (start (idle_with "hello" mode_chat)) eq_refl)
    as (op & k & c1 & Hs & Hr); [discriminate | discriminate |].
  destruct (Hr (ticking 1000)
               (mkChat "hi there" [mkGroundingSource (Some "t"%string) None]) c1)
    as (c3 & a & H3 & _ & _ & Hc & Hg & _).
  exists op, k, c1, c3, a. repeat split; assumption.
Defined.

Lemma calls_app (a b : list event) : calls (a ++ b) = calls a ++ calls b.
Proof.
  induction a as [|[e|T op o] a IH]; cbn; [reflexivity | exact IH |].
  now rewrite IH.
Qed.

Lemma status_writes_app (a b : list event) :
  status_writes (a ++ b) = status_writes a ++ status_writes b.
Proof.
  induction a as [|[e|T op o] a IH]; cbn; [reflexivity | | exact IH].
  destruct e; cbn; rewrite ?IH; reflexivity.
Qed.

(** X11. A submission run on its own calls the gateway exactly once, with
    the captured text as prompt: [generateImage] in image mode and
    [generateVideo] in video mode, neither of which is handed the pending
    attachments, and [chat] with the captured attachments otherwise. *)
Theorem one_gateway_call_per_submission :
  forall (w : World) (snap : AppState) (c : Run),
    nothingToSend snap = false ->
    calls (trace (snd (run w (handleSend snap) c)))
    = calls (trace c) ++
      [match activeMode snap with
       | mode_image => existT _ _ (generateImage (input snap))
       | mode_video => existT _ _ (generateVideo (input snap))
       | _ => existT _ _ (chat (input snap) (attachments snap)
                               (chatOptions (input snap) (thinkingBudget snap)))
       end].
Proof.
  intros w snap c H. unfold handleSend. rewrite H.
  destruct (activeMode snap);
    cbn -[Js.numberToString String.append chatOptions];
    match goal with
    | |- context [gateway w ?T ?op] => destruct (gateway w T op) as [v|e]
    end;
    cbn -[Js.numberToString String.append chatOptions];
    rewrite !calls_app; cbn; rewrite ?app_nil_r; reflexivity.
Qed.

(** A picture attached to an image request is not sent to the gateway. *)
Lemma one_gateway_call_witness :
  calls (trace (snd (run (mkWorld (ticking 1000) gw_ok)
                         (handleSend
                            (mkState [] "in the style of this" IDLE
                                     [ingest "data:image/png;base64,AA" "blob:a"]
                                     mode_image 500))
                         (start initialState))))
  = [existT _ _ (generateImage "in the style of this")].
Proof.
  exact (one_gateway_call_per_submission
           (mkWorld (ticking 1000) gw_ok)
           (mkState [] "in the style of this" IDLE
                    [ingest "data:image/png;base64,AA" "blob:a"] mode_image 500)
           (start initialState) eq_refl).
Defined.

(** X12. When a submission starts waiting for the gateway the status is
    generating in image and video mode and thinking otherwise, so the busy
    indicator (shown for status thinking only) is on for a chat request and
    off for an image or video request. *)
Theorem busy_indicator_only_while_chat_waits :
  forall (clk : nat -> Z) (snap : AppState) (live : Run),
    nothingToSend snap = false ->
    exists (T : Type) (op : gateway_op T) (k : outcome T -> prog unit)
           (c1 : Run),
      run_sync clk (handleSend snap) live = (Suspended op k, c1) /\
      status_writes (trace c1)
      = status_writes (trace live) ++
        match activeMode snap with
        | mode_image | mode_video => [THINKING; GENERATING]
        | _ => [THINKING]
        end /\
      status (app c1) = waitingStatus (activeMode snap) /\
      showsThinkingIndicator (app c1)
      = match activeMode snap with
        | mode_image | mode_video => false
        | _ => true
        end.
Proof.
  intros clk snap live H. enter_handleSend H;
    do 4 eexists; (split; [reflexivity|]);
    cbn -[Js.numberToString String.append];
    rewrite !status_writes_app; cbn; rewrite ?app_nil_r, <- ?app_assoc;
    repeat split.
Qed.

(** A video request waits with the indicator off. *)
Lemma busy_indicator_witness :
  exists (T : Type) (op : gateway_op T) (k : outcome T -> prog unit) (c1 : Run),
    run_sync (ticking 1000) (handleSend video_request) (start video_request)
    = (Suspended op k, c1) /\
    status (app c1) = GENERATING /\
    showsThinkingIndicator (app c1) = false.
Proof.
  destruct (busy_indicator_only_while_chat_waits
              (ticking 1000) video_request (start video_request) eq_refl)
    as (T & op & k & c1 & Hs & _ & Hst & Hi).
  exists T, op, k, c1. repeat split; assumption.
Defined.

(** X13. When the gateway answers, the handler touches neither the text
    box, nor the pending attachments, nor the mode, nor the budget: whatever
    was typed or attached while the request was waiting is still there. *)
Theorem answer_leaves_composition_alone :
  forall (clk : nat -> Z) (snap : AppState) (live : Run),
    nothingToSend snap = false ->
    exists (T : Type) (op : gateway_op T) (k : outcome T -> prog unit)
           (c1 : Run),
      run_sync clk (handleSend snap) live = (Suspended op k, c1) /\
      forall (clk' : nat -> Z) (o : outcome T) (c2 : Run),
        input (app (snd (resume clk' op k o c2))) = input (app c2) /\
        attachments (app (snd (resume clk' op k o c2))) = attachments (app c2) /\
        activeMode (app (snd (resume clk' op k o c2))) = activeMode (app c2) /\
        thinkingBudget (app (snd (resume clk' op k o c2))) = thinkingBudget (app c2).
Proof.
  intros clk snap live H.
  destruct (handleSend_parks clk snap live H)
    as (T & op & k & c1 & u & Hs & _ & _ & _ & _ & _ & _ & _ & _ & _ & _ & _ & Hk).
  exists T, op, k, c1. split; [exact Hs|].
  intros clk' o c2.
  destruct (Hk clk' o c2) as (c3 & a & Hres & _ & _ & _ & _ & Hi & Ha & Hm & Hb).
  cbn [p_op p_k p_T] in Hres. rewrite Hres. cbn [snd]. auto.
Qed.

(** A second text typed while the first request waits survives the answer. *)
Lemma answer_leaves_composition_witness :
  exists (T : Type) (op : gateway_op T) (k : outcome T -> prog unit) (c1 : Run),
    run_sync (ticking 1000) (handleSend first_question) (start first_question)
    = (Suspended op k, c1) /\
    forall o : outcome T,
      input (app (snd (resume (ticking 1000) op k o (start busy))))
      = "again"%string.
Proof.
  destruct (answer_leaves_composition_alone
              (ticking 1000) first_question (start first_question) eq_refl)
    as (T & op & k & c1 & Hs & Hr).
  exists T, op, k, c1. split; [exact Hs|].
  intros o. exact (proj1 (Hr (ticking 1000) o (start busy))).
Defined.

Lemma to_int_not_nil (z : Z) :
  Z.to_int z <> Decimal.Pos Decimal.Nil /\ Z.to_int z <> Decimal.Neg Decimal.Nil.
Proof.
  destruct z as [|p|p]; cbn; split; try discriminate;
    intros [= E]; revert E; apply DecimalPos.Unsigned.to_uint_nonnil.
Qed.

Lemma numberToString_inj (a b : Z) :
  Js.numberToString a = Js.numberToString b -> a = b.
Proof.
  unfold Js.numberToString. intros H.
  apply (f_equal NilZero.int_of_string) in H.
  destruct (to_int_not_nil a) as [A1 A2], (to_int_not_nil b) as [B1 B2].
  rewrite !NilZero.isi in H by assumption.
  injection H as H. now apply DecimalZ.to_int_inj.
Qed.

(** X14. The two messages one submission appends carry the same [id]
    exactly when the clock reads the same value at their creation: an
    advancing clock keeps them apart, a standing one makes them collide. *)
Theorem submission_ids_collide_iff_clock_stands :
  forall (w : World) (snap : AppState) (c : Run),
    nothingToSend snap = false ->
    exists u a : Message,
      messages (app (snd (run w (handleSend snap) c)))
      = messages (app c) ++ [u; a] /\
      (Message.id u = Message.id a <->
       clock w (reads c) = clock w (2 + reads c)).
Proof.
  intros w snap c H. unfold handleSend. rewrite H.
  destruct (activeMode snap);
    cbn -[Js.numberToString String.append chatOptions];
    match goal with
    | |- context [gateway w ?T ?op] => destruct (gateway w T op) as [v|e]
    end;
    cbn -[Js.numberToString String.append chatOptions];
    do 2 eexists; rewrite <- !app_assoc; (split; [reflexivity|]);
    cbn -[Js.numberToString];
    (split; [apply numberToString_inj | intros ->; reflexivity]).
Qed.

(** With a clock that advances at every reading the ids differ. *)
Lemma submission_ids_witness :
  exists u a : Message,
    messages (app (snd (run (mkWorld (ticking 1000) gw_ok)
                            (handleSend first_question) (start first_question))))
    = [u; a] /\
    Message.id u <> Message.id a.
Proof.
  destruct (submission_ids_collide_iff_clock_stands
              (mkWorld (ticking 1000) gw_ok) first_question
              (start first_question) eq_refl)
    as (u & a & Hm & Hid).
  exists u, a. split; [exact Hm|].
  intros E. apply Hid in E. discriminate E.
Defined.

(** X15. With the status idle the send button and the Enter key run the
    same handler; the button does nothing in any other status; Enter with
    Shift held, and every other key, never submit. *)
Theorem ways_into_handleSend :
  forall s : AppState,
    (status s = IDLE -> onSendClick s = onKeyDown "Enter" false s) /\
    (status s <> IDLE -> onSendClick s = Ret tt) /\
    (forall key : string, onKeyDown key true s = Ret tt) /\
    (forall (key : string) (shiftKey : bool),
        key <> "Enter"%string -> onKeyDown key shiftKey s = Ret tt).
Proof.
  intros s. split; [|split; [apply onSendClick_gated|split]].
  - intros H. unfold onSendClick, sendDisabled. rewrite H. cbn.
    unfold handleSend. now destruct (nothingToSend s).
  - intros key. unfold onKeyDown. cbn. now rewrite andb_false_r.
  - intros key shiftKey H. unfold onKeyDown.
    apply String.eqb_neq in H. now rewrite H.
Qed.

(** An idle state with a text typed: both ways submit it. *)
Lemma ways_into_handleSend_witness :
  onSendClick first_question = handleSend first_question.
Proof.
  rewrite (proj1 (ways_into_handleSend first_question) eq_refl). reflexivity.
Defined.

(** ** Invariants of the event loop *)

Section EventLoop.

Variable clk : nat -> Z.

Lemma count_role_snoc (r : MessageRole) (l : list Message) (m : Message) :
  count_role r (l ++ [m])
  = (count_role r l + if MessageRole_eqb (Message.role m) r then 1 else 0)%nat.
Proof.
  unfold count_role. rewrite filter_app, length_app. cbn.
  now destruct (MessageRole_eqb (Message.role m) r).
Qed.

Lemma dropNth_split {A : Type} (l1 l2 : list A) (a : A) :
  dropNth (length l1) (l1 ++ a :: l2) = l1 ++ l2.
Proof.
  unfold dropNth. induction l1 as [|x l1 IH]; [reflexivity|].
  exact (f_equal (cons x) IH).
Qed.

Lemma Forall_filterOutIndex {A : Type} (P : A -> Prop) (i idx : nat) (l : list A) :
  Forall P l -> Forall P (filterOutIndex i idx l).
Proof.
  intros H. revert idx. induction H as [|x l Hx Hl IH]; intros idx; cbn.
  - constructor.
  - destruct (negb (idx =? i)%nat); [constructor|]; auto.
Qed.

Lemma handle_nothing (h : AppState -> prog unit) (s : Sys) :
  h (app (cfg s)) = Ret tt -> handle clk h s = s.
Proof. intros H. unfold handle. rewrite H. now destruct s. Qed.

Lemma handle_same (h h' : AppState -> prog unit) (s : Sys) :
  h (app (cfg s)) = h' (app (cfg s)) -> handle clk h s = handle clk h' s.
Proof. intros H. unfold handle. now rewrite H. Qed.

(** Both ways in either do nothing or run [handleSend] past its guard. *)
Lemma click_submits_or_not (s : AppState) :
  onSendClick s = Ret tt \/
  (nothingToSend s = false /\ onSendClick s = handleSend s).
Proof.
  unfold onSendClick, sendDisabled.
  destruct (negb (AgentStatus_eqb (status s) IDLE)); cbn; [now left|].
  destruct (nothingToSend s); [now left | now right].
Qed.

Lemma key_submits_or_not (key : string) (shiftKey : bool) (s : AppState) :
  onKeyDown key shiftKey s = Ret tt \/
  (nothingToSend s = false /\ onKeyDown key shiftKey s = handleSend s).
Proof.
  unfold onKeyDown.
  destruct (String.eqb key "Enter" && negb shiftKey); [|now left].
  destruct (nothingToSend s) eqn:E; [left | now right].
  unfold handleSend. now rewrite E.
Qed.

(** What a submission past the guard does to the system. *)
Lemma handle_send (s : Sys) :
  nothingToSend (app (cfg s)) = false ->
  exists (pk : parked) (c1 : Run) (u : Message),
    handle clk handleSend s = mkSys c1 (waiting s ++ [pk]) /\
    answers_once pk /\
    messages (app c1) = messages (app (cfg s)) ++ [u] /\
    Message.role u = user /\
    Message.attachments u = Some (attachments (app (cfg s))) /\
    attachments (app c1) = [] /\
    status (app c1) = waitingStatus (activeMode (app (cfg s))) /\
    thinkingBudget (app c1) = thinkingBudget (app (cfg s)).
Proof.
  intros H.
  destruct (handleSend_parks clk (app (cfg s)) (cfg s) H)
    as (T & op & k & c1 & u & Hs & Hm & Hr & _ & Ha & _ & _ & Hat & Hst & _ & Hb & _ & Hk).
  exists (mkParked T op k), c1, u. unfold handle. rewrite Hs. cbn.
  repeat split; assumption.
Qed.

Lemma Inv_boot : Inv boot.
Proof. unfold Inv. cbn. repeat split; auto. Qed.

Lemma Inv_send (s : Sys) :
  Inv s -> nothingToSend (app (cfg s)) = false -> Inv (handle clk handleSend s).
Proof.
  intros (Hst & Hidle & Hw & Hb & Hatt & Hmsg & Hcount) H.
  destruct (handle_send s H)
    as (pk & c1 & u & -> & Hk & Hm & Hr & Ha & Hat & Hst1 & Hb1).
  unfold Inv. cbn. rewrite Hm, Hat, Hst1, Hb1. repeat split.
  - destruct (activeMode (app (cfg s))); cbn; auto.
  - intros E. now apply app_eq_nil in E as [_ E].
  - apply Forall_app. split; [assumption | now repeat constructor].
  - assumption.
  - constructor.
  - apply Forall_app. split; [assumption|].
    constructor; [|constructor]. split; [rewrite Hr; discriminate|].
    rewrite Ha. exact Hatt.
  - rewrite !count_role_snoc, Hr, length_app. cbn. lia.
Qed.

Lemma Inv_settle (i : nat) (pk : parked) (o : outcome (p_T pk)) (s : Sys) :
  Inv s -> nth_error (waiting s) i = Some pk -> Inv (settle clk i pk o s).
Proof.
  intros (Hst & Hidle & Hw & Hb & Hatt & Hmsg & Hcount) Hn.
  destruct (nth_error_split _ _ Hn) as (l1 & l2 & E & <-).
  rewrite E in Hw, Hcount. apply Forall_app in Hw as [Hw1 Hw2].
  inversion Hw2 as [|? ? Hpk Hw3]; subst.
  destruct (Hpk clk o (cfg s))
    as (c' & a & Hres & Hm & Hr & Hao & Hi & _ & Hat & _ & Hbud).
  unfold settle. rewrite Hres, E, dropNth_split. cbn [file_handler].
  unfold Inv. cbn. rewrite Hm, Hi, Hat, Hbud. repeat split; auto.
  - apply Forall_app. now split.
  - apply Forall_app. split; [assumption|].
    constructor; [|constructor]. split; [rewrite Hr; discriminate | assumption].
  - rewrite !count_role_snoc, Hr. cbn.
    rewrite length_app in *. cbn in Hcount. lia.
Qed.

Lemma Inv_step (e : kind) (s s' : Sys) : Inv s -> step clk e s s' -> Inv s'.
Proof.
  intros HI Hstep. destruct Hstep.
  - destruct HI as (Hst & Hidle & Hw & Hb & Hatt & Hmsg & Hcount).
    unfold Inv, handle. cbn. repeat split; assumption.
  - destruct HI as (Hst & Hidle & Hw & Hb & Hatt & Hmsg & Hcount).
    unfold Inv, handle. cbn -[ingest]. repeat split; try assumption.
    apply Forall_app. split; [assumption|].
    constructor; [|constructor]. apply ingest_fields.
  - destruct HI as (Hst & Hidle & Hw & Hb & Hatt & Hmsg & Hcount).
    unfold Inv, update. cbn. repeat split; try assumption.
    now apply Forall_filterOutIndex.
  - destruct HI as (Hst & Hidle & Hw & Hb & Hatt & Hmsg & Hcount).
    unfold Inv, update. cbn. repeat split; try assumption.
    destruct (thinkingBudget (app (cfg s)) =? 0)%Z; auto.
  - destruct HI as (Hst & Hidle & Hw & Hb & Hatt & Hmsg & Hcount).
    unfold Inv, update. cbn. repeat split; assumption.
  - destruct (click_submits_or_not (app (cfg s))) as [E | [N E]].
    + now rewrite (handle_nothing _ _ E).
    + rewrite (handle_same onSendClick handleSend s E). now apply Inv_send.
  - destruct (key_submits_or_not key shiftKey (app (cfg s))) as [E | [N E]].
    + now rewrite (handle_nothing _ _ E).
    + rewrite (handle_same (onKeyDown key shiftKey) handleSend s E).
      now apply Inv_send.
  - now apply Inv_settle.
Qed.

Lemma reachable_Inv (s : Sys) : reachable clk s -> Inv s.
Proof.
  induction 1 as [|e s s' _ IH Hstep]; [apply Inv_boot | eapply Inv_step; eauto].
Qed.

(** One more request can always be put in flight: type a letter, press
    Enter. *)
Lemma one_more_waiting (s : Sys) :
  reachable clk s ->
  exists s', reachable clk s' /\ length (waiting s') = S (length (waiting s)).
Proof.
  intros Hr.
  set (s1 := handle clk (fun _ => onChange "x") s).
  assert (R1 : reachable clk s1) by (eapply reach_step; [exact Hr | constructor]).
  assert (N : nothingToSend (app (cfg s1)) = false) by reflexivity.
  exists (handle clk (onKeyDown "Enter" false) s1). split.
  - eapply reach_step; [exact R1 | constructor].
  - rewrite (handle_same (onKeyDown "Enter" false) handleSend s1 eq_refl).
    destruct (handle_send s1 N) as (pk & c1 & u & -> & _).
    cbn. rewrite length_app. cbn. subst s1. unfold handle. cbn. lia.
Qed.

End EventLoop.

Lemma session1_reachable : reachable (ticking 1000) session1.
Proof.
  eapply reach_step; [eapply reach_step; [apply reach_boot|]|];
    unfold session1; constructor.
Defined.

Lemma session2_reachable : reachable (ticking 1000) session2.
Proof.
  eapply reach_step; [eapply reach_step; [apply session1_reachable|]|];
    unfold session2; constructor.
Defined.

(** X16. At the end of every turn of the event loop the status is idle,
    thinking or generating: the error status is written and overwritten
    within one and the same turn, and recording and live are never written
    at all. *)
Theorem error_status_never_at_rest :
  forall (clk : nat -> Z) (s : Sys),
    reachable clk s ->
    (status (app (cfg s)) = IDLE \/
     status (app (cfg s)) = THINKING \/
     status (app (cfg s)) = GENERATING) /\
    status (app (cfg s)) <> ERROR.
Proof.
  intros clk s H. destruct (reachable_Inv clk s H) as (Hst & _).
  split; [exact Hst|]. destruct Hst as [E|[E|E]]; rewrite E; discriminate.
Qed.

(** Two requests in flight: the status at rest is thinking. *)
Lemma error_status_witness :
  status (app (cfg session2)) <> ERROR.
Proof.
  exact (proj2 (error_status_never_at_rest (ticking 1000) session2
                                          session2_reachable)).
Defined.

(** X17. Whenever no handler is waiting for the gateway the status is
    idle. *)
Theorem idle_when_nothing_waits :
  forall (clk : nat -> Z) (s : Sys),
    reachable clk s -> waiting s = [] -> status (app (cfg s)) = IDLE.
Proof.
  intros clk s H. now destruct (reachable_Inv clk s H) as (_ & Hidle & _).
Qed.

(** After some typing, with nothing sent. *)
Lemma idle_when_nothing_waits_witness :
  status (app (cfg (handle (ticking 1000) (fun _ => onChange "draft") boot)))
  = IDLE.
Proof.
  apply (idle_when_nothing_waits (ticking 1000)).
  - eapply reach_step; [apply reach_boot | constructor].
  - reflexivity.
Defined.

(** X18. The transcript is append-only: every event leaves the messages
    already there in place and in order, and adds at most one message at
    the end. *)
Theorem transcript_only_grows :
  forall (clk : nat -> Z) (e : kind) (s s' : Sys),
    reachable clk s -> step clk e s s' ->
    exists new : list Message,
      messages (app (cfg s')) = messages (app (cfg s)) ++ new /\
      length new <= 1.
Proof.
  intros clk e s s' Hr Hstep.
  pose proof (reachable_Inv clk s Hr) as (_ & _ & Hw & _).
  assert (Same : forall t, messages (app (cfg t)) = messages (app (cfg s)) ->
                 exists new, messages (app (cfg t)) = messages (app (cfg s)) ++ new /\
                             length new <= 1).
  { intros t E. exists []. rewrite app_nil_r. split; [exact E | cbn; lia]. }
  assert (Send : nothingToSend (app (cfg s)) = false ->
                 exists new,
                   messages (app (cfg (handle clk handleSend s)))
                   = messages (app (cfg s)) ++ new /\ length new <= 1).
  { intros N. destruct (handle_send clk s N) as (pk & c1 & u & -> & _ & Hm & _).
    exists [u]. split; [exact Hm | cbn; lia]. }
  destruct Hstep; try (apply Same; reflexivity).
  - destruct (click_submits_or_not (app (cfg s))) as [E | [N E]].
    + rewrite (handle_nothing _ _ _ E). now apply Same.
    + rewrite (handle_same clk onSendClick handleSend s E). now apply Send.
  - destruct (key_submits_or_not key shiftKey (app (cfg s))) as [E | [N E]].
    + rewrite (handle_nothing _ _ _ E). now apply Same.
    + rewrite (handle_same clk (onKeyDown key shiftKey) handleSend s E).
      now apply Send.
  - assert (Hpk : answers_once pk).
    { eapply Forall_forall; [exact Hw|]. eapply nth_error_In; eassumption. }
    destruct (Hpk clk o (cfg s)) as (c' & a & Hres & Hm & _).
    unfold settle. rewrite Hres. cbn. exists [a]. split; [exact Hm | cbn; lia].
Qed.

(** The second Enter of the session adds one message to the one there. *)
Lemma transcript_only_grows_witness :
  exists new : list Message,
    messages (app (cfg session2))
    = messages (app (cfg (handle (ticking 1000) (fun _ => onChange "again")
                                 session1))) ++ new /\
    length new <= 1.
Proof.
  apply (transcript_only_grows (ticking 1000) by_key).
  - eapply reach_step; [apply session1_reachable | constructor].
  - unfold session2. constructor.
Defined.

(** X19. At any time the user messages of the transcript are as many as the
    assistant messages plus the requests still waiting: every submission is
    answered by exactly one assistant message, success or error. *)
Theorem users_balance_assistants :
  forall (clk : nat -> Z) (s : Sys),
    reachable clk s ->
    count_role user (messages (app (cfg s)))
    = (count_role assistant (messages (app (cfg s))) + length (waiting s))%nat.
Proof.
  intros clk s H.
  now destruct (reachable_Inv clk s H) as (_ & _ & _ & _ & _ & _ & Hc).
Qed.

(** Two questions sent, none answered yet. *)
Lemma users_balance_witness :
  count_role user (messages (app (cfg session2)))
  = (count_role assistant (messages (app (cfg session2)))
     + length (waiting session2))%nat.
Proof.
  exact (users_balance_assistants (ticking 1000) session2 session2_reachable).
Defined.

(** X20. Every attachment the application ever holds, pending or inside a
    message of the transcript, has the type the ingestor's rules give for
    its MIME type (the gateway's image/png and video/mp4 results included);
    in particular none has type text or note.  No message has the role
    system. *)
Theorem attachments_typed_by_the_rules :
  forall (clk : nat -> Z) (s : Sys),
    reachable clk s ->
    (forall a, In a (attachments (app (cfg s))) ->
               type a = classify (mimeType a) /\ type a <> text /\ type a <> note) /\
    (forall m l a,
        In m (messages (app (cfg s))) ->
        Message.attachments m = Some l -> In a l ->
        type a = classify (mimeType a) /\ type a <> text /\ type a <> note) /\
    (forall m, In m (messages (app (cfg s))) -> Message.role m <> system).
Proof.
  intros clk s H.
  destruct (reachable_Inv clk s H) as (_ & _ & _ & _ & Hatt & Hmsg & _).
  assert (Ok : forall a, att_ok a ->
                         type a = classify (mimeType a) /\
                         type a <> text /\ type a <> note).
  { intros a E. split; [exact E|]. rewrite E.
    apply classify_range. }
  rewrite Forall_forall in Hatt, Hmsg. split; [|split].
  - intros a Ha. now apply Ok, Hatt.
  - intros m l a Hm Hl Ha. apply Ok.
    destruct (Hmsg m Hm) as [_ Hok]. rewrite Hl in Hok. cbn in Hok.
    rewrite Forall_forall in Hok. now apply Hok.
  - intros m Hm. now destruct (Hmsg m Hm).
Qed.

(** The messages of the session are user messages. *)
Lemma attachments_typed_witness :
  Forall (fun m => Message.role m <> system) (messages (app (cfg session2))).
Proof.
  apply Forall_forall.
  exact (proj2 (proj2 (attachments_typed_by_the_rules
                         (ticking 1000) session2 session2_reachable))).
Defined.

(** X21. The thinking budget is always 0 or 500: it starts at 500 and only
    the reasoning toggle writes it, so these are the only budgets a chat
    request can carry. *)
Theorem budget_is_0_or_500 :
  forall (clk : nat -> Z) (s : Sys),
    reachable clk s ->
    thinkingBudget (app (cfg s)) = 0%Z \/ thinkingBudget (app (cfg s)) = 500%Z.
Proof.
  intros clk s H. now destruct (reachable_Inv clk s H) as (_ & _ & _ & Hb & _).
Qed.

(** The session never touched the toggle. *)
Lemma budget_witness :
  thinkingBudget (app (cfg session2)) = 0%Z \/
  thinkingBudget (app (cfg session2)) = 500%Z.
Proof.
  exact (budget_is_0_or_500 (ticking 1000) session2 session2_reachable).
Defined.

(** X22. Nothing bounds the number of requests in flight: for every [n]
    some sequence of events leaves [n] handlers waiting for the gateway at
    once. *)
Theorem outstanding_requests_unbounded :
  forall (clk : nat -> Z) (n : nat),
    exists s : Sys, reachable clk s /\ length (waiting s) = n.
Proof.
  intros clk n. induction n as [|n (s & Hr & Hl)].
  - exists boot. split; [constructor | reflexivity].
  - destruct (one_more_waiting clk s Hr) as (s' & Hr' & Hl').
    exists s'. split; [exact Hr' | now rewrite Hl', Hl].
Qed.

(** X23. Every handler waiting for the gateway, however its promise settles
    and whatever happened in between, finishes normally when resumed: it
    appends one assistant message, sets the status to idle and leaves the
    text box, the pending attachments, the mode and the budget as they
    are. *)
Theorem waiting_handlers_always_answer :
  forall (clk : nat -> Z) (s : Sys) (pk : parked),
    reachable clk s -> In pk (waiting s) -> answers_once pk.
Proof.
  intros clk s pk H Hin.
  destruct (reachable_Inv clk s H) as (_ & _ & Hw & _).
  rewrite Forall_forall in Hw. now apply Hw.
Qed.

(** Both waiting handlers of the session answer. *)
Lemma waiting_handlers_witness :
  Forall answers_once (waiting session2).
Proof.
  apply Forall_forall. intros pk Hin.
  exact (waiting_handlers_always_answer (ticking 1000) session2 pk
                                        session2_reachable Hin).
Defined.

(** A reader result with two commas keeps the piece between them. *)
Lemma ingest_data_witness :
  data (ingest "data:image/png;base64,AA,BB" "blob:a") = Some "AA"%string /\
  lacks "," "AA" = true.
Proof.
  split; [reflexivity|].
  exact (proj2 (ingest_data_follows_the_first_comma
                  "data:image/png;base64,AA,BB" "blob:a") "AA"%string eq_refl).
Defined.

(** A blank text with nothing attached. *)
Lemma handleSend_noop_witness :
  snd (run (mkWorld (ticking 1000) gw_ok)
           (handleSend (idle_with "   " mode_chat)) (start initialState))
  = start initialState.
Proof.
  apply (proj2 (handleSend_noop_iff_blank_and_no_attachment
                  (mkWorld (ticking 1000) gw_ok) (idle_with "   " mode_chat)
                  (start initialState))).
  split; reflexivity.
Defined.


(** ** The send button on its own *)

Lemma reachable_by_button_reachable (clk : nat -> Z) (s : Sys) :
  reachable_by_button clk s -> reachable clk s.
Proof.
  induction 1 as [|e s s' _ IH _ Hstep]; [constructor|].
  eapply reach_step; eauto.
Qed.

Lemma click_submits_when_idle (s : AppState) :
  onSendClick s = Ret tt \/
  (status s = IDLE /\ nothingToSend s = false /\ onSendClick s = handleSend s).
Proof.
  unfold onSendClick, sendDisabled.
  destruct (status s); cbn; try (now left).
  destruct (nothingToSend s); [now left | now right].
Qed.

(** X24. When text is only ever sent with the button, at most one request
    is in flight at any time, and the status is idle exactly when none
    is. *)
Theorem button_alone_keeps_one_request_in_flight :
  forall (clk : nat -> Z) (s : Sys),
    reachable_by_button clk s ->
    length (waiting s) <= 1 /\
    (waiting s = [] <-> status (app (cfg s)) = IDLE).
Proof.
  intros clk s H. induction H as [|e s s' Hr [IHl IHi] Hk Hstep].
  - cbn. split; [lia | split; reflexivity].
  - pose proof (reachable_Inv clk s (reachable_by_button_reachable clk s Hr))
      as (_ & _ & Hw & _).
    destruct Hstep; try (split; [exact IHl | exact IHi]).
    + destruct (click_submits_when_idle (app (cfg s))) as [E | (Hidle & N & E)].
      * rewrite (handle_nothing _ _ _ E). now split.
      * rewrite (handle_same clk onSendClick handleSend s E).
        destruct (handle_send clk s N)
          as (pk & c1 & u & -> & _ & _ & _ & _ & _ & Hst & _).
        apply IHi in Hidle. rewrite Hidle. cbn. split; [lia|].
        rewrite Hst. split; [discriminate|].
        destruct (activeMode (app (cfg s))); discriminate.
    + now elim Hk.
    + destruct (nth_error_split _ _ H) as (l1 & l2 & E & <-).
      rewrite E in Hw, IHl. rewrite length_app in IHl. cbn in IHl.
      destruct l1 as [|? ?]; [|cbn in IHl; lia].
      destruct l2 as [|? ?]; [|cbn in IHl; lia].
      apply Forall_app in Hw as [_ Hw]. inversion Hw as [|? ? Hpk _]; subst.
      destruct (Hpk clk o (cfg s)) as (c' & a & Hres & _ & _ & _ & Hi & _).
      unfold settle. rewrite Hres, E. cbn. split; [lia|]. now split.
Qed.

(** One question sent with the button: one request waits, status thinking. *)
Lemma button_alone_witness :
  length (waiting button_session) <= 1 /\
  (waiting button_session = [] <-> status (app (cfg button_session)) = IDLE).
Proof.
  apply (button_alone_keeps_one_request_in_flight (ticking 1000)).
  eapply button_step with (e := by_click);
    [eapply button_step with (e := by_typing);
       [apply button_boot | discriminate | constructor]
    | discriminate
    | unfold button_session; constructor].
Defined.
